(** * The koonkie log follower ([log_follower.go])

    A shallow embedding of [LogFollower] and of its operations
    [NewLogFollower], [GetState], [GetNext], [pollEventlog],
    [pollCompactedEventlog] and [checkLogEnd].

    The follower talks to two collaborators through Go interfaces: the
    document service ([repository.Documents]) and an optional metrics sink
    ([FollowerMetrics]).  Both are outside the package, so every call to
    them is kept as a visible node of a small program tree ([prog]); a
    [handler] gives the answers, and [run] executes a tree against a
    handler while writing down every call together with its answer.

    Integers are [Z] with the wrap-around of Go's fixed-width types written
    out where the code computes ([wrap64], [to_int32]).  The mutex of
    [checkLogEnd] only matters between goroutines; the model is sequential
    and leaves it out. *)

From Stdlib Require Import ZArith List String Bool Lia.
Import ListNotations.
Open Scope Z_scope.
Open Scope string_scope.
Open Scope list_scope.

(** ** Fixed-width integers and durations *)

Module Int.

Definition MaxInt32 : Z := 2147483647.
Definition MinInt32 : Z := -2147483648.
Definition MaxInt64 : Z := 9223372036854775807.
Definition MinInt64 : Z := -9223372036854775808.

(** Two's-complement reduction to [bits] bits, signed. *)
Definition wrap (bits : Z) (z : Z) : Z :=
  (z + 2 ^ (bits - 1)) mod 2 ^ bits - 2 ^ (bits - 1).

(** The result of an [int64] operation. *)
Definition wrap64 : Z -> Z := wrap 64.

(** The conversion [int32(x)] of an [int64] value. *)
Definition to_int32 : Z -> Z := wrap 32.

(** [time.Duration] is an [int64] count of nanoseconds;
    [Duration.Milliseconds] is [int64(d) / 1e6], and Go's integer
    division truncates toward zero. *)
Definition Duration := Z.
Definition Millisecond : Duration := 1000000.
Definition Milliseconds (d : Duration) : Z := Z.quot d 1000000.

End Int.
Import Int.
Arguments wrap64 : simpl never.
Arguments to_int32 : simpl never.

(** ** Wire types of the document service *)

(** Modelled from the spec: the message types of the external package
    [github.com/ttab/elephant-api/repository] are not part of this
    repository.  An item is "{id:int64, type:string, payload}"; the requests
    carry the fields that [log_follower.go] sets, every other field keeps
    Go's zero value. *)
Record EventlogItem : Type := {
  Id : Z;
  Type_ : string;
  Uuid : string
}.

Record GetEventlogRequest : Type := {
  After : Z;
  BatchSize : Z;
  WaitMs : Z
}.

Record GetEventlogResponse : Type := {
  Items : list EventlogItem
}.

Record GetCompactedEventlogRequest : Type := {
  cAfter : Z;
  cUntil : Z;
  cType : string
}.

Record GetCompactedEventlogResponse : Type := {
  cItems : list EventlogItem
}.

(** Go's [error] values: what a collaborator reports, and the wrapping of
    [fmt.Errorf("...: %w", err)]. *)
Inductive error : Type :=
| Transport (msg : string)
| Wrapf (context : string) (cause : error).

(** A Go [(value, error)] return. *)
Inductive result (A : Type) : Type :=
| Ok (a : A)
| Err (e : error).
Arguments Ok {A} a.
Arguments Err {A} e.

(** ** The follower *)

(** A value of the interface [FollowerMetrics]; the sink is identified by
    the follower name it reports under. *)
Record FollowerMetrics : Type := { name : string }.

Record FollowerOptions : Type := {
  Metrics : option FollowerMetrics;
  DocType : string;
  StartAfter : Z;
  CaughtUp : bool;
  WaitDuration : Duration
}.

Record LogFollower : Type := {
  docType : string;
  position : Z;
  caughtUp : bool;
  wait : Z;
  metrics : option FollowerMetrics;
  endCompactRead : bool;
  endCompact : Z
}.

Definition eventlogBatchSize : Z := 100.
Definition compactedBlockSize : Z := 500.

(** The struct literal of [NewLogFollower] sets [docs], [docType],
    [position], [caughtUp] and [wait]; the other fields, [metrics] among
    them, keep their zero values. *)
Definition NewLogFollower (opts : FollowerOptions) : LogFollower :=
  {| docType := DocType opts;
     position := StartAfter opts;
     caughtUp := CaughtUp opts;
     wait := to_int32 (Z.min (Milliseconds (WaitDuration opts)) MaxInt32);
     metrics := None;
     endCompactRead := false;
     endCompact := 0 |}.

Definition GetState (lf : LogFollower) : Z * bool :=
  (position lf, caughtUp lf).

(** Field assignments. *)
Definition set_position (p : Z) (lf : LogFollower) : LogFollower :=
  {| docType := docType lf; position := p; caughtUp := caughtUp lf;
     wait := wait lf; metrics := metrics lf;
     endCompactRead := endCompactRead lf; endCompact := endCompact lf |}.

Definition set_caughtUp (b : bool) (lf : LogFollower) : LogFollower :=
  {| docType := docType lf; position := position lf; caughtUp := b;
     wait := wait lf; metrics := metrics lf;
     endCompactRead := endCompactRead lf; endCompact := endCompact lf |}.

Definition set_endCompactRead (b : bool) (lf : LogFollower) : LogFollower :=
  {| docType := docType lf; position := position lf; caughtUp := caughtUp lf;
     wait := wait lf; metrics := metrics lf;
     endCompactRead := b; endCompact := endCompact lf |}.

Definition set_endCompact (e : Z) (lf : LogFollower) : LogFollower :=
  {| docType := docType lf; position := position lf; caughtUp := caughtUp lf;
     wait := wait lf; metrics := metrics lf;
     endCompactRead := endCompactRead lf; endCompact := e |}.

(** ** Programs that call the collaborators *)

Inductive prog (A : Type) : Type :=
| Ret (a : A)
| CallEventlog (req : GetEventlogRequest)
               (k : result GetEventlogResponse -> prog A)
| CallCompactedEventlog (req : GetCompactedEventlogRequest)
                        (k : result GetCompactedEventlogResponse -> prog A)
| CallSetPosition (m : FollowerMetrics) (state : string) (pos : Z)
                  (k : prog A).
Arguments Ret {A} a.
Arguments CallEventlog {A} req k.
Arguments CallCompactedEventlog {A} req k.
Arguments CallSetPosition {A} m state pos k.

Fixpoint bind {A B : Type} (p : prog A) (f : A -> prog B) : prog B :=
  match p with
  | Ret a => f a
  | CallEventlog req k => CallEventlog req (fun r => bind (k r) f)
  | CallCompactedEventlog req k =>
      CallCompactedEventlog req (fun r => bind (k r) f)
  | CallSetPosition m state pos k => CallSetPosition m state pos (bind k f)
  end.

Declare Scope prog_scope.
Delimit Scope prog_scope with prog.
Notation "x <- c ;; k" := (bind c (fun x => k))
  (at level 100, c at next level, right associativity) : prog_scope.
Notation "' pat <- c ;; k" := (bind c (fun x => match x with pat => k end))
  (at level 100, pat pattern, c at next level, right associativity)
  : prog_scope.

(** [lf.docs.Eventlog(ctx, req)] *)
Definition docs_Eventlog (req : GetEventlogRequest)
  : prog (result GetEventlogResponse) :=
  CallEventlog req Ret.

(** [lf.docs.CompactedEventlog(ctx, req)] *)
Definition docs_CompactedEventlog (req : GetCompactedEventlogRequest)
  : prog (result GetCompactedEventlogResponse) :=
  CallCompactedEventlog req Ret.

(** [m.SetPosition(state, position)] *)
Definition metrics_SetPosition (m : FollowerMetrics) (state : string)
  (pos : Z) : prog unit :=
  CallSetPosition m state pos (Ret tt).

(** ** The operations of [log_follower.go] *)

(** The request of [checkLogEnd]: only [After] is set. *)
Definition lastEventRequest : GetEventlogRequest :=
  {| After := -1; BatchSize := 0; WaitMs := 0 |}.

(** [checkLogEnd] returns Go's [error]: [None] is [nil]. *)
Definition checkLogEnd (lf : LogFollower)
  : prog (option error * LogFollower) :=
  (if endCompactRead lf then Ret (None, lf)
   else
     r <- docs_Eventlog lastEventRequest ;;
     match r with
     | Err err =>
         Ret (Some (Wrapf "read last event in eventlog" err), lf)
     | Ok res =>
         let lf1 := match Items res with
                    | item :: _ => set_endCompact (Id item) lf
                    | [] => lf
                    end in
         Ret (None, set_endCompactRead true lf1)
     end)%prog.

(** The request of [pollEventlog]. *)
Definition tailRequest (lf : LogFollower) : GetEventlogRequest :=
  {| After := position lf;
     BatchSize := eventlogBatchSize;
     WaitMs := wait lf |}.

(** The loop body of [pollEventlog]: an item is skipped when a type is
    configured and the item's type differs. *)
Definition keepItem (dt : string) (item : EventlogItem) : bool :=
  negb (negb (dt =? "") && negb (Type_ item =? dt)).

(** [res.Items[len(res.Items)-1]] when [len(res.Items) > 0]. *)
Definition lastItem (items : list EventlogItem) : option EventlogItem :=
  last (map Some items) None.

Definition pollEventlog (lf : LogFollower)
  : prog (result (list EventlogItem) * LogFollower) :=
  (r <- docs_Eventlog (tailRequest lf) ;;
   match r with
   | Err err => Ret (Err (Wrapf "poll eventlog" err), lf)
   | Ok res =>
       let items := filter (keepItem (docType lf)) (Items res) in
       let lf1 := match lastItem (Items res) with
                  | Some item => set_position (Id item) lf
                  | None => lf
                  end in
       Ret (Ok items, lf1)
   end)%prog.

(** [until] of [pollCompactedEventlog]; the sum is an [int64] sum. *)
Definition compactedUntil (lf : LogFollower) : Z :=
  Z.min (endCompact lf) (wrap64 (position lf + compactedBlockSize)).

Definition pollCompactedEventlog (lf : LogFollower)
  : prog (result (list EventlogItem) * LogFollower) :=
  (let until := compactedUntil lf in
   r <- docs_CompactedEventlog {| cAfter := position lf;
                                  cUntil := until;
                                  cType := docType lf |} ;;
   match r with
   | Err err => Ret (Err (Wrapf "poll compacted eventlog" err), lf)
   | Ok res =>
       let lf1 := set_position until lf in
       let lf2 := if until >=? endCompact lf1
                  then set_caughtUp true lf1 else lf1 in
       Ret (Ok (cItems res), lf2)
   end)%prog.

(** The label [GetNext] reports the position under. *)
Definition stateLabel (lf : LogFollower) : string :=
  if caughtUp lf then "tail" else "compact".

Definition GetNext (lf : LogFollower)
  : prog (result (list EventlogItem) * LogFollower) :=
  ('(err, lf) <- checkLogEnd lf ;;
   match err with
   | Some e => Ret (Err e, lf)
   | None =>
       '(r, lf) <- (if caughtUp lf then pollEventlog lf
                    else pollCompactedEventlog lf) ;;
       match r with
       | Err e => Ret (Err e, lf)
       | Ok items =>
           let state := stateLabel lf in
           _ <- match metrics lf with
                | Some m => metrics_SetPosition m state (position lf)
                | None => Ret tt
                end ;;
           Ret (Ok items, lf)
       end
   end)%prog.

(** ** Running a program against the collaborators *)

(** What the collaborators do, over a state [W] of their own (the log
    behind the service, the gauges behind the sink, the cancellation of the
    context). *)
Record handler (W : Type) : Type := {
  onEventlog :
    GetEventlogRequest -> W -> result GetEventlogResponse * W;
  onCompactedEventlog :
    GetCompactedEventlogRequest -> W ->
    result GetCompactedEventlogResponse * W;
  onSetPosition : FollowerMetrics -> string -> Z -> W -> W
}.
Arguments onEventlog {W} h req w.
Arguments onCompactedEventlog {W} h req w.
Arguments onSetPosition {W} h m state pos w.

(** One call, as it was made and as it was answered. *)
Inductive event : Type :=
| EvEventlog (req : GetEventlogRequest) (reply : result GetEventlogResponse)
| EvCompactedEventlog (req : GetCompactedEventlogRequest)
                      (reply : result GetCompactedEventlogResponse)
| EvSetPosition (m : FollowerMetrics) (state : string) (pos : Z).

Definition trace : Type := list event.

Fixpoint run {W A : Type} (h : handler W) (p : prog A) (w : W)
  : A * W * trace :=
  match p with
  | Ret a => (a, w, [])
  | CallEventlog req k =>
      let '(r, w1) := onEventlog h req w in
      let '(a, w2, tr) := run h (k r) w1 in
      (a, w2, EvEventlog req r :: tr)
  | CallCompactedEventlog req k =>
      let '(r, w1) := onCompactedEventlog h req w in
      let '(a, w2, tr) := run h (k r) w1 in
      (a, w2, EvCompactedEventlog req r :: tr)
  | CallSetPosition m state pos k =>
      let w1 := onSetPosition h m state pos w in
      let '(a, w2, tr) := run h k w1 in
      (a, w2, EvSetPosition m state pos :: tr)
  end.

(** Any number of [GetNext] calls in a row, each on the follower and the
    collaborators as the call before left them: the results in order and
    the calls made. *)
Inductive calls {W : Type} (h : handler W)
  : LogFollower -> W -> list (result (list EventlogItem)) -> trace ->
    LogFollower -> W -> Prop :=
| calls_done (lf : LogFollower) (w : W) : calls h lf w [] [] lf w
| calls_next (lf : LogFollower) (w : W) (r : result (list EventlogItem))
    (lf1 : LogFollower) (w1 : W) (t1 : trace)
    (rs : list (result (list EventlogItem))) (t : trace)
    (lf' : LogFollower) (w' : W) :
    run h (GetNext lf) w = (r, lf1, w1, t1) ->
    calls h lf1 w1 rs t lf' w' ->
    calls h lf w (r :: rs) (t1 ++ t) lf' w'.

(** The same as a program: a consumer that calls [GetNext] [n] times,
    whatever each call returns. *)
Fixpoint GetNextTimes (n : nat) (lf : LogFollower)
  : prog (list (result (list EventlogItem)) * LogFollower) :=
  match n with
  | O => Ret ([], lf)
  | S n' =>
      ('(r, lf1) <- GetNext lf ;;
       '(rs, lf') <- GetNextTimes n' lf1 ;;
       Ret (r :: rs, lf'))%prog
  end.

Definition succeeded {A : Type} (r : result A) : Prop :=
  match r with Ok _ => True | Err _ => False end.

(** The boundary the follower works with from its next call on: the one it
    has, or the one [checkLogEnd] reads now. *)
Definition resolvedBoundary {W : Type} (h : handler W) (lf : LogFollower)
  (w : W) : Z :=
  let '(_, lf1, _, _) := run h (checkLogEnd lf) w in endCompact lf1.

(** The compacted phase has room: the position is an [int64] at or below
    the boundary, and a block past the boundary is still an [int64]. *)
Definition withinBoundary {W : Type} (h : handler W) (lf : LogFollower)
  (w : W) : Prop :=
  caughtUp lf = false ->
  MinInt64 <= position lf <= resolvedBoundary h lf w /\
  resolvedBoundary h lf w <= MaxInt64 - compactedBlockSize.

(** The service answers a fetch with entries after [After]: a batch that
    is not empty ends at or past it. *)
Definition endsAfter (ev : event) : Prop :=
  match ev with
  | EvEventlog req (Ok res) =>
      match lastItem (Items res) with
      | Some it => After req <= Id it
      | None => True
      end
  | _ => True
  end.

(** ** A scripted document service, for concrete runs *)

Inductive scriptedReply : Type :=
| ReplyEventlog (r : result GetEventlogResponse)
| ReplyCompactedEventlog (r : result GetCompactedEventlogResponse).

(** The service answers from a script, one entry per call; a call the
    script has no entry for fails, and the sink does nothing. *)
Definition scripted : handler (list scriptedReply) :=
  {| onEventlog := fun _ w =>
       match w with
       | ReplyEventlog r :: w' => (r, w')
       | _ => (Err (Transport "unavailable"), w)
       end;
     onCompactedEventlog := fun _ w =>
       match w with
       | ReplyCompactedEventlog r :: w' => (r, w')
       | _ => (Err (Transport "unavailable"), w)
       end;
     onSetPosition := fun _ _ _ w => w |}.

Definition item (id : Z) (type : string) : EventlogItem :=
  {| Id := id; Type_ := type; Uuid := "" |}.

Definition batch (items : list EventlogItem) : scriptedReply :=
  ReplyEventlog (Ok {| Items := items |}).

Definition compactedBatch (items : list EventlogItem) : scriptedReply :=
  ReplyCompactedEventlog (Ok {| cItems := items |}).

Definition options (start : Z) (caught : bool) (type : string)
  (d : Duration) : FollowerOptions :=
  {| Metrics := None; DocType := type; StartAfter := start;
     CaughtUp := caught; WaitDuration := d |}.

(** ** The follower after each kind of successful fetch *)

(** After [checkLogEnd] has read the last event. *)
Definition resolved (lf : LogFollower) (res : GetEventlogResponse)
  : LogFollower :=
  set_endCompactRead true
    match Items res with
    | item :: _ => set_endCompact (Id item) lf
    | [] => lf
    end.

(** After [pollEventlog] has read a batch. *)
Definition tailed (lf : LogFollower) (res : GetEventlogResponse)
  : LogFollower :=
  match lastItem (Items res) with
  | Some item => set_position (Id item) lf
  | None => lf
  end.

(** After [pollCompactedEventlog] has read a window. *)
Definition compacted (lf : LogFollower) : LogFollower :=
  if compactedUntil lf >=? endCompact lf
  then set_caughtUp true (set_position (compactedUntil lf) lf)
  else set_position (compactedUntil lf) lf.

(** The request of [pollCompactedEventlog]. *)
Definition compactedRequest (lf : LogFollower)
  : GetCompactedEventlogRequest :=
  {| cAfter := position lf; cUntil := compactedUntil lf;
     cType := docType lf |}.

(** The call to the sink that ends a successful [GetNext], if any. *)
Definition reported (lf : LogFollower) : trace :=
  match metrics lf with
  | Some m => [EvSetPosition m (stateLabel lf) (position lf)]
  | None => []
  end.

Definition isSetPosition (ev : event) : bool :=
  match ev with EvSetPosition _ _ _ => true | _ => false end.

Definition isCompactedEventlog (ev : event) : bool :=
  match ev with EvCompactedEventlog _ _ => true | _ => false end.

(** The fetch of [checkLogEnd]; a fetch of [pollEventlog] asks for a batch
    of 100 and is never this one. *)
Definition isLastEventFetch (ev : event) : bool :=
  match ev with
  | EvEventlog req _ => (After req =? -1)%Z && (BatchSize req =? 0)%Z
  | _ => false
  end.

Definition noLastEventFetch (tr : trace) : bool :=
  forallb (fun ev => negb (isLastEventFetch ev)) tr.

(** ** The three stages of a [GetNext] call, as relations

    Each relation lists the ways a stage can go, with the answers of the
    service that lead there; [GetNext_step] below shows that a run of
    [GetNext] is always one of them. *)

Inductive resolution {W : Type} (h : handler W) (lf : LogFollower) (w : W)
  : option error -> LogFollower -> W -> trace -> Prop :=
| resolution_memo :
    endCompactRead lf = true ->
    resolution h lf w None lf w []
| resolution_read (res : GetEventlogResponse) (w1 : W) :
    endCompactRead lf = false ->
    onEventlog h lastEventRequest w = (Ok res, w1) ->
    resolution h lf w None (resolved lf res) w1
      [EvEventlog lastEventRequest (Ok res)]
| resolution_failed (e : error) (w1 : W) :
    endCompactRead lf = false ->
    onEventlog h lastEventRequest w = (Err e, w1) ->
    resolution h lf w (Some (Wrapf "read last event in eventlog" e)) lf w1
      [EvEventlog lastEventRequest (Err e)].

Inductive fetch {W : Type} (h : handler W) (lf : LogFollower) (w : W)
  : result (list EventlogItem) -> LogFollower -> W -> trace -> Prop :=
| fetch_tail (res : GetEventlogResponse) (w1 : W) :
    caughtUp lf = true ->
    onEventlog h (tailRequest lf) w = (Ok res, w1) ->
    fetch h lf w (Ok (filter (keepItem (docType lf)) (Items res)))
      (tailed lf res) w1 [EvEventlog (tailRequest lf) (Ok res)]
| fetch_tail_failed (e : error) (w1 : W) :
    caughtUp lf = true ->
    onEventlog h (tailRequest lf) w = (Err e, w1) ->
    fetch h lf w (Err (Wrapf "poll eventlog" e)) lf w1
      [EvEventlog (tailRequest lf) (Err e)]
| fetch_compacted (res : GetCompactedEventlogResponse) (w1 : W) :
    caughtUp lf = false ->
    onCompactedEventlog h (compactedRequest lf) w = (Ok res, w1) ->
    fetch h lf w (Ok (cItems res)) (compacted lf) w1
      [EvCompactedEventlog (compactedRequest lf) (Ok res)]
| fetch_compacted_failed (e : error) (w1 : W) :
    caughtUp lf = false ->
    onCompactedEventlog h (compactedRequest lf) w = (Err e, w1) ->
    fetch h lf w (Err (Wrapf "poll compacted eventlog" e)) lf w1
      [EvCompactedEventlog (compactedRequest lf) (Err e)].

(** What the sink does to the collaborators' state when it is called. *)
Definition afterReport {W : Type} (h : handler W) (lf : LogFollower) (w : W)
  : W :=
  match metrics lf with
  | Some m => onSetPosition h m (stateLabel lf) (position lf) w
  | None => w
  end.

Inductive step {W : Type} (h : handler W) (lf : LogFollower) (w : W)
  : result (list EventlogItem) -> LogFollower -> W -> trace -> Prop :=
| step_unresolved (e : error) (w1 : W) (t1 : trace) :
    resolution h lf w (Some e) lf w1 t1 ->
    step h lf w (Err e) lf w1 t1
| step_fetch_failed (lf1 : LogFollower) (w1 : W) (t1 : trace) (e : error)
    (w2 : W) (t2 : trace) :
    resolution h lf w None lf1 w1 t1 ->
    fetch h lf1 w1 (Err e) lf1 w2 t2 ->
    step h lf w (Err e) lf1 w2 (t1 ++ t2)
| step_fetched (lf1 : LogFollower) (w1 : W) (t1 : trace)
    (items : list EventlogItem) (lf2 : LogFollower) (w2 : W) (t2 : trace) :
    resolution h lf w None lf1 w1 t1 ->
    fetch h lf1 w1 (Ok items) lf2 w2 t2 ->
    step h lf w (Ok items) lf2 (afterReport h lf2 w2)
      (t1 ++ t2 ++ reported lf2).

(** ** Three statements the code does not satisfy as they stand *)


(** "For any sequence of successful calls the position is non-decreasing,
    for every starting position and every boundary value." *)
Definition positionNeverDecreases : Prop :=
  forall (W : Type) (h : handler W) (lf : LogFollower) (w : W)
    (rs : list (result (list EventlogItem))) (tr : trace)
    (lf' : LogFollower) (w' : W),
    calls h lf w rs tr lf' w' ->
    Forall succeeded rs ->
    position lf <= position lf'.

(** "For every negative wait duration the stored wait is the duration's
    (negative) millisecond count, and it is that negative wait that a
    tailing follower forwards." *)
Definition negativeWaitIsNegativeCount : Prop :=
  forall opts : FollowerOptions,
    WaitDuration opts < 0 ->
    wait (NewLogFollower opts) = Milliseconds (WaitDuration opts) /\
    wait (NewLogFollower opts) < 0.

(** ** The parts of a run *)

Definition resultOf {A W : Type} (out : A * LogFollower * W * trace) : A :=
  fst (fst (fst out)).

Definition followerOf {A W : Type} (out : A * LogFollower * W * trace)
  : LogFollower :=
  snd (fst (fst out)).

Definition worldOf {A W : Type} (out : A * LogFollower * W * trace) : W :=
  snd (fst out).

Definition traceOf {A W : Type} (out : A * LogFollower * W * trace)
  : trace :=
  snd out.

(** ** Concrete runs against the scripted service *)

Definition followerAt (start : Z) (caught : bool) (type : string)
  : LogFollower :=
  NewLogFollower (options start caught type 0).

(** A log whose last entry is 1000, replayed from 0 in two windows and then
    tailed. *)
Definition replayScript : list scriptedReply :=
  [batch [item 1000 "article"];
   compactedBatch [item 3 "article"];
   compactedBatch [];
   batch [item 1001 "article"; item 1002 "planning"]].

Definition replayRun :=
  Eval vm_compute in
    run scripted (GetNextTimes 3 (followerAt 0 false "article")) replayScript.

Definition replayFirst :=
  Eval vm_compute in
    run scripted (GetNext (followerAt 0 false "article")) replayScript.

Definition replaySecond :=
  Eval vm_compute in
    let '(_, lf1, w1, _) := replayFirst in run scripted (GetNext lf1) w1.

Definition replayThird :=
  Eval vm_compute in
    let '(_, lf2, w2, _) := replaySecond in run scripted (GetNext lf2) w2.

Definition replayRest :=
  Eval vm_compute in
    run scripted (GetNextTimes 2 (followerOf replayFirst))
      (worldOf replayFirst).

(** The service goes away after the boundary is read. *)
Definition outageScript : list scriptedReply :=
  [batch [item 1000 "article"]].

Definition outageRun :=
  Eval vm_compute in
    run scripted (GetNext (followerAt 0 false "article")) outageScript.

(** A tailing follower reads a mixed batch, then the service goes away. *)
Definition tailScript : list scriptedReply :=
  [batch [item 12 "planning"];
   batch [item 11 "article"; item 12 "planning"; item 13 "article";
          item 14 "planning"]].

Definition tailRun :=
  Eval vm_compute in
    run scripted (GetNext (followerAt 10 true "article")) tailScript.

Definition tailThenOutageRun :=
  Eval vm_compute in
    run scripted (GetNextTimes 2 (followerAt 10 true "article")) tailScript.



(** A follower that starts past the last entry of the log. *)
Definition pastEndRun :=
  Eval vm_compute in
    run scripted (GetNextTimes 1 (followerAt 2000 false "article"))
      [batch [item 1000 "article"]; compactedBatch []].

(** Options that name a sink. *)
Definition optionsWithSink : FollowerOptions :=
  {| Metrics := Some {| name := "index" |}; DocType := "";
     StartAfter := 0; CaughtUp := true; WaitDuration := 0 |}.

Definition sinkScript : list scriptedReply :=
  [batch [item 12 "planning"];
   batch [item 11 "article"; item 12 "planning"];
   batch []].

Definition sinkRun :=
  Eval vm_compute in
    run scripted (GetNextTimes 2 (NewLogFollower optionsWithSink))
      sinkScript.

(** A wait of minus five milliseconds and a half: a follower that
    replays a log of 400 entries in one window, then tails. *)
Definition negativeWaitOptions : FollowerOptions :=
  options 0 false "" (-5500000).

Definition negativeWaitScript : list scriptedReply :=
  [batch [item 400 "article"]; compactedBatch []; batch []].

Definition negativeWaitReplay :=
  Eval vm_compute in
    run scripted (GetNextTimes 1 (NewLogFollower negativeWaitOptions))
      negativeWaitScript.

Definition negativeWaitTail :=
  Eval vm_compute in
    run scripted (GetNext (followerOf negativeWaitReplay))
      (worldOf negativeWaitReplay).

(** ** Requests, apart from their answers *)

Inductive request : Type :=
| ReqEventlog (req : GetEventlogRequest)
| ReqCompactedEventlog (req : GetCompactedEventlogRequest)
| ReqSetPosition (m : FollowerMetrics) (state : string) (pos : Z).

Definition requestOf (ev : event) : request :=
  match ev with
  | EvEventlog req _ => ReqEventlog req
  | EvCompactedEventlog req _ => ReqCompactedEventlog req
  | EvSetPosition m state pos => ReqSetPosition m state pos
  end.

(** The fetch the follower in this state makes once its boundary is
    resolved. *)
Definition pollRequest (lf : LogFollower) : request :=
  if caughtUp lf then ReqEventlog (tailRequest lf)
  else ReqCompactedEventlog (compactedRequest lf).

(** A fetch of [pollEventlog]: it asks for a batch of 100. *)
Definition isTailFetch (ev : event) : bool :=
  match ev with
  | EvEventlog req _ => (BatchSize req =? eventlogBatchSize)%Z
  | _ => false
  end.




Definition replayOneRun :=
  Eval vm_compute in
    run scripted (GetNextTimes 1 (followerAt 0 false "article")) replayScript.

Definition untypedRun :=
  Eval vm_compute in
    run scripted (GetNext (followerAt 10 true "")) tailScript.

(** ** The Prometheus sink ([PrometheusFollowerMetrics])

    The gauge vector of [client_golang] is outside the package.  It is
    taken here for what [SetPosition] uses of it: a table from the values
    of its two labels, [follower] and [state], to the value last set.  The
    vectors of the process live in a heap and are shared by address, as
    the [*prometheus.GaugeVec] of the source is; the conversion
    [float64(position)] and the registry behind [prometheus.Registerer]
    are parameters. *)

Module Prometheus.

Section Gauges.

Variable F : Type.
Variable float64 : Z -> F.

Definition GaugeVec : Type := string -> string -> option F.

Definition emptyVec : GaugeVec := fun _ _ => None.

(** [vec.WithLabelValues(follower, state).Set(v)] *)
Definition setGauge (vec : GaugeVec) (follower state : string) (v : F)
  : GaugeVec :=
  fun f s => if (f =? follower) && (s =? state) then Some v else vec f s.

Definition heap : Type := list GaugeVec.

(** [prometheus.NewGaugeVec(...)]: a new vector, with no value yet. *)
Definition NewGaugeVec (hp : heap) : nat * heap :=
  (List.length hp, hp ++ [emptyVec]).

Fixpoint store (hp : heap) (a : nat) (vec : GaugeVec) : heap :=
  match hp, a with
  | [], _ => []
  | _ :: hp', O => vec :: hp'
  | v :: hp', S a' => v :: store hp' a' vec
  end.

(** [logPosition] is a pointer: [None] is [nil]. *)
Record PrometheusFollowerMetrics : Type := {
  name : string;
  logPosition : option nat
}.

Section Registry.

Variable R : Type.
Variable Register : nat -> R -> option error * R.

(** The struct literal sets [logPosition] only; [followerName] is not
    used. *)
Definition NewPrometheusFollowerMetrics (reg : R) (followerName : string)
  (hp : heap) : result PrometheusFollowerMetrics * R * heap :=
  let '(logPosition, hp1) := NewGaugeVec hp in
  match Register logPosition reg with
  | (Some err, reg1) =>
      (Err (Wrapf "failed to register log position metric" err), reg1, hp1)
  | (None, reg1) =>
      (Ok {| name := ""; logPosition := Some logPosition |}, reg1, hp1)
  end.

End Registry.

(** [SetPosition] implements [FollowerMetrics]; [None] is the panic of a
    [nil] vector. *)
Definition SetPosition (p : PrometheusFollowerMetrics) (state : string)
  (position : Z) (hp : heap) : option heap :=
  match logPosition p with
  | None => None
  | Some a =>
      match nth_error hp a with
      | None => None
      | Some vec =>
          Some (store hp a (setGauge vec (name p) state (float64 position)))
      end
  end.

Definition WithName (p : PrometheusFollowerMetrics) (followerName : string)
  : PrometheusFollowerMetrics :=
  {| name := followerName; logPosition := logPosition p |}.

(** The value of one series of the vector of [p], as a scrape reads it. *)
Definition gauge (hp : heap) (p : PrometheusFollowerMetrics)
  (follower state : string) : option F :=
  match logPosition p with
  | None => None
  | Some a =>
      match nth_error hp a with
      | None => None
      | Some vec => vec follower state
      end
  end.

End Gauges.

End Prometheus.


(** The sink of the first vector of a process, and the follower with the
    sink run against it; the conversion to [float64] is exact on the
    positions of these runs. *)
Definition firstSink : Prometheus.PrometheusFollowerMetrics :=
  {| Prometheus.name := ""; Prometheus.logPosition := Some O |}.


(** A registry that accepts a collector once. *)
Definition registerOnce (c : nat) (taken : bool) : option error * bool :=
  if taken then (Some (Transport "duplicate metrics collector"), true)
  else (None, true).

(** ** Basic facts *)

Lemma run_bind {W A B : Type} (h : handler W) (p : prog A) (f : A -> prog B)
  (w : W) :
  run h (bind p f) w =
  let '(a, w1, t1) := run h p w in
  let '(b, w2, t2) := run h (f a) w1 in
  (b, w2, t1 ++ t2).
Proof.
  revert w. induction p as [a | req k IH | req k IH | m state pos k IH];
    intros w; simpl.
  - destruct (run h (f a) w) as [[b w2] t2]. reflexivity.
  - destruct (onEventlog h req w) as [r w1]. rewrite IH.
    destruct (run h (k r) w1) as [[a w2] t1].
    destruct (run h (f a) w2) as [[b w3] t2]. reflexivity.
  - destruct (onCompactedEventlog h req w) as [r w1]. rewrite IH.
    destruct (run h (k r) w1) as [[a w2] t1].
    destruct (run h (f a) w2) as [[b w3] t2]. reflexivity.
  - rewrite IH.
    destruct (run h k (onSetPosition h m state pos w)) as [[a w2] t1].
    destruct (run h (f a) w2) as [[b w3] t2]. reflexivity.
Qed.

Lemma keepItem_typed (dt : string) (it : EventlogItem) :
  dt <> "" -> keepItem dt it = (Type_ it =? dt).
Proof.
  intros H. unfold keepItem.
  destruct (String.eqb_spec dt "") as [E | _]; [contradiction | simpl].
  apply negb_involutive.
Qed.

Lemma keepItem_untyped (it : EventlogItem) : keepItem "" it = true.
Proof. reflexivity. Qed.

Lemma wrap64_id (z : Z) : MinInt64 <= z <= MaxInt64 -> wrap64 z = z.
Proof.
  unfold wrap64, wrap, MinInt64, MaxInt64. intros H.
  change (2 ^ (64 - 1)) with 9223372036854775808.
  change (2 ^ 64) with 18446744073709551616.
  rewrite Z.mod_small; lia.
Qed.

Lemma to_int32_id (z : Z) : MinInt32 <= z <= MaxInt32 -> to_int32 z = z.
Proof.
  unfold to_int32, wrap, MinInt32, MaxInt32. intros H.
  change (2 ^ (32 - 1)) with 2147483648.
  change (2 ^ 32) with 4294967296.
  rewrite Z.mod_small; lia.
Qed.

Section Runs.

Context {W : Type} (h : handler W).

(** [checkLogEnd], run: nothing is fetched once the flag is set; else one
    fetch of the last event, whose answer decides. *)
Lemma run_checkLogEnd (lf : LogFollower) (w : W) :
  run h (checkLogEnd lf) w =
  if endCompactRead lf then (None, lf, w, [])
  else
    let '(r, w1) := onEventlog h lastEventRequest w in
    (match r with
     | Err err => (Some (Wrapf "read last event in eventlog" err), lf)
     | Ok res => (None, resolved lf res)
     end, w1, [EvEventlog lastEventRequest r]).
Proof.
  unfold checkLogEnd. destruct (endCompactRead lf); simpl; [reflexivity |].
  destruct (onEventlog h lastEventRequest w) as [[res | err] w1];
    reflexivity.
Qed.

Lemma run_pollEventlog (lf : LogFollower) (w : W) :
  run h (pollEventlog lf) w =
  let '(r, w1) := onEventlog h (tailRequest lf) w in
  (match r with
   | Err err => (Err (Wrapf "poll eventlog" err), lf)
   | Ok res =>
       (Ok (filter (keepItem (docType lf)) (Items res)), tailed lf res)
   end, w1, [EvEventlog (tailRequest lf) r]).
Proof.
  unfold pollEventlog. simpl.
  destruct (onEventlog h _ w) as [[res | err] w1]; reflexivity.
Qed.

Lemma run_pollCompactedEventlog (lf : LogFollower) (w : W) :
  run h (pollCompactedEventlog lf) w =
  let '(r, w1) := onCompactedEventlog h (compactedRequest lf) w in
  (match r with
   | Err err => (Err (Wrapf "poll compacted eventlog" err), lf)
   | Ok res => (Ok (cItems res), compacted lf)
   end, w1, [EvCompactedEventlog (compactedRequest lf) r]).
Proof.
  unfold pollCompactedEventlog, compactedRequest. simpl.
  destruct (onCompactedEventlog h _ w) as [[res | err] w1]; reflexivity.
Qed.

Lemma run_GetNext (lf : LogFollower) (w : W) :
  run h (GetNext lf) w =
  let '(err, lf1, w1, t1) := run h (checkLogEnd lf) w in
  match err with
  | Some e => (Err e, lf1, w1, t1)
  | None =>
      let '(r, lf2, w2, t2) :=
        run h (if caughtUp lf1 then pollEventlog lf1
               else pollCompactedEventlog lf1) w1 in
      match r with
      | Err e => (Err e, lf2, w2, t1 ++ t2)
      | Ok items =>
          (Ok items, lf2,
           match metrics lf2 with
           | Some m => onSetPosition h m (stateLabel lf2) (position lf2) w2
           | None => w2
           end,
           t1 ++ t2 ++ reported lf2)
      end
  end.
Proof.
  unfold GetNext. rewrite run_bind.
  destruct (run h (checkLogEnd lf) w) as [[[err lf1] w1] t1].
  destruct err as [e |]; simpl.
  - rewrite app_nil_r. reflexivity.
  - rewrite run_bind.
    destruct (run h (if caughtUp lf1 then _ else _) w1)
      as [[[r lf2] w2] t2].
    destruct r as [items | e]; simpl.
    + unfold reported. destruct (metrics lf2) as [m |]; simpl.
      * reflexivity.
      * rewrite !app_nil_r. reflexivity.
    + rewrite app_nil_r. reflexivity.
Qed.

Lemma checkLogEnd_resolution (lf : LogFollower) (w : W)
  (err : option error) (lf1 : LogFollower) (w1 : W) (t1 : trace) :
  run h (checkLogEnd lf) w = (err, lf1, w1, t1) ->
  resolution h lf w err lf1 w1 t1.
Proof.
  rewrite run_checkLogEnd. destruct (endCompactRead lf) eqn:Hread.
  - intros E. inversion E; subst. now constructor.
  - destruct (onEventlog h lastEventRequest w) as [[res | e] w0] eqn:Hlast;
      intros E; inversion E; subst; now constructor.
Qed.

Lemma poll_fetch (lf : LogFollower) (w : W)
  (r : result (list EventlogItem)) (lf1 : LogFollower) (w1 : W)
  (t1 : trace) :
  run h (if caughtUp lf then pollEventlog lf
         else pollCompactedEventlog lf) w = (r, lf1, w1, t1) ->
  fetch h lf w r lf1 w1 t1.
Proof.
  destruct (caughtUp lf) eqn:Hmode.
  - rewrite run_pollEventlog.
    destruct (onEventlog h (tailRequest lf) w) as [[res | e] w0] eqn:Htail;
      intros E; inversion E; subst; now constructor.
  - rewrite run_pollCompactedEventlog.
    destruct (onCompactedEventlog h (compactedRequest lf) w)
      as [[res | e] w0] eqn:Hwin;
      intros E; inversion E; subst; now constructor.
Qed.

(** Every run of [GetNext] is a [step]. *)
Lemma GetNext_step (lf : LogFollower) (w : W)
  (r : result (list EventlogItem)) (lf' : LogFollower) (w' : W)
  (tr : trace) :
  run h (GetNext lf) w = (r, lf', w', tr) -> step h lf w r lf' w' tr.
Proof.
  rewrite run_GetNext.
  destruct (run h (checkLogEnd lf) w) as [[[err lf1] w1] t1] eqn:Hres.
  apply checkLogEnd_resolution in Hres.
  destruct err as [e |].
  - intros E. inversion E; subst.
    assert (lf' = lf) by (inversion Hres; reflexivity). subst.
    now constructor.
  - destruct (run h (if caughtUp lf1 then _ else _) w1)
      as [[[r2 lf2] w2] t2] eqn:Hpoll.
    apply poll_fetch in Hpoll.
    destruct r2 as [items | e]; intros E; inversion E; subst.
    + eapply step_fetched; eassumption.
    + assert (lf' = lf1) by (inversion Hpoll; reflexivity). subst.
      eapply step_fetch_failed; eassumption.
Qed.

(** A run of the consumer is a sequence of calls. *)
Lemma GetNextTimes_calls (n : nat) (lf : LogFollower) (w : W)
  (rs : list (result (list EventlogItem))) (lf' : LogFollower) (w' : W)
  (tr : trace) :
  run h (GetNextTimes n lf) w = (rs, lf', w', tr) ->
  calls h lf w rs tr lf' w'.
Proof.
  revert lf w rs lf' w' tr.
  induction n as [| n IH]; intros lf w rs lf' w' tr; simpl.
  - intros E. inversion E; subst. constructor.
  - rewrite run_bind.
    destruct (run h (GetNext lf) w) as [[[r lf1] w1] t1] eqn:Hrun.
    rewrite run_bind.
    destruct (run h (GetNextTimes n lf1) w1) as [[[rs0 lf2] w2] t2]
      eqn:Hrest.
    simpl. rewrite app_nil_r. intros E. inversion E; subst.
    econstructor; [eassumption | now apply IH].
Qed.

End Runs.

(** ** What each stage leaves of the follower *)

Lemma resolved_fields (lf : LogFollower) (res : GetEventlogResponse) :
  position (resolved lf res) = position lf /\
  caughtUp (resolved lf res) = caughtUp lf /\
  wait (resolved lf res) = wait lf /\
  docType (resolved lf res) = docType lf /\
  metrics (resolved lf res) = metrics lf /\
  endCompactRead (resolved lf res) = true.
Proof. unfold resolved. destruct (Items res); simpl; auto 10. Qed.

Lemma resolved_endCompact (lf : LogFollower) (res : GetEventlogResponse) :
  endCompact (resolved lf res) =
  match Items res with it :: _ => Id it | [] => endCompact lf end.
Proof. unfold resolved. destruct (Items res); reflexivity. Qed.

Lemma tailed_fields (lf : LogFollower) (res : GetEventlogResponse) :
  caughtUp (tailed lf res) = caughtUp lf /\
  wait (tailed lf res) = wait lf /\
  docType (tailed lf res) = docType lf /\
  metrics (tailed lf res) = metrics lf /\
  endCompactRead (tailed lf res) = endCompactRead lf /\
  endCompact (tailed lf res) = endCompact lf.
Proof. unfold tailed. destruct (lastItem (Items res)); simpl; auto 10. Qed.

Lemma tailed_position (lf : LogFollower) (res : GetEventlogResponse) :
  position (tailed lf res) =
  match lastItem (Items res) with
  | Some it => Id it
  | None => position lf
  end.
Proof. unfold tailed. destruct (lastItem (Items res)); reflexivity. Qed.

Lemma compacted_fields (lf : LogFollower) :
  position (compacted lf) = compactedUntil lf /\
  wait (compacted lf) = wait lf /\
  docType (compacted lf) = docType lf /\
  metrics (compacted lf) = metrics lf /\
  endCompactRead (compacted lf) = endCompactRead lf /\
  endCompact (compacted lf) = endCompact lf.
Proof.
  unfold compacted.
  destruct (compactedUntil lf >=? endCompact lf); simpl; auto 10.
Qed.

Lemma compacted_caughtUp (lf : LogFollower) :
  caughtUp (compacted lf) =
  (compactedUntil lf >=? endCompact lf) || caughtUp lf.
Proof.
  unfold compacted.
  destruct (compactedUntil lf >=? endCompact lf); reflexivity.
Qed.

Section Stages.

Context {W : Type} (h : handler W).

(** Resolution touches the boundary and its flag, nothing else. *)
Lemma resolution_keeps (lf : LogFollower) (w : W) (err : option error)
  (lf1 : LogFollower) (w1 : W) (t1 : trace) :
  resolution h lf w err lf1 w1 t1 ->
  position lf1 = position lf /\ caughtUp lf1 = caughtUp lf /\
  wait lf1 = wait lf /\ docType lf1 = docType lf /\
  metrics lf1 = metrics lf.
Proof.
  intros R. inversion R; subst; auto.
  destruct (resolved_fields lf res) as (? & ? & ? & ? & ? & ?). auto.
Qed.

(** A resolution that went through leaves the flag set. *)
Lemma resolution_sets_flag (lf : LogFollower) (w : W) (lf1 : LogFollower)
  (w1 : W) (t1 : trace) :
  resolution h lf w None lf1 w1 t1 -> endCompactRead lf1 = true.
Proof.
  intros R. inversion R; subst; auto.
Qed.

(** A fetch touches the position and the mode, nothing else; a failed
    one touches nothing. *)
Lemma fetch_keeps (lf : LogFollower) (w : W)
  (r : result (list EventlogItem)) (lf1 : LogFollower) (w1 : W)
  (t1 : trace) :
  fetch h lf w r lf1 w1 t1 ->
  wait lf1 = wait lf /\ docType lf1 = docType lf /\
  metrics lf1 = metrics lf /\ endCompactRead lf1 = endCompactRead lf /\
  endCompact lf1 = endCompact lf.
Proof.
  intros F. inversion F; subst; auto.
  - destruct (tailed_fields lf res) as (? & ? & ? & ? & ? & ?). auto.
  - destruct (compacted_fields lf) as (? & ? & ? & ? & ? & ?). auto.
Qed.

Lemma fetch_mode (lf : LogFollower) (w : W)
  (r : result (list EventlogItem)) (lf1 : LogFollower) (w1 : W)
  (t1 : trace) :
  fetch h lf w r lf1 w1 t1 -> caughtUp lf = true -> caughtUp lf1 = true.
Proof.
  intros F Hmode. inversion F; subst; auto; try congruence.
  now rewrite (proj1 (tailed_fields lf res)).
Qed.

End Stages.

(** ** Failed calls *)

(** C7: a [GetNext] call that returns an error, whichever fetch it comes
    from, leaves the position and the mode as they were before the call. *)
Theorem GetNext_error_keeps_state {W : Type} (h : handler W)
  (lf : LogFollower) (w : W) (e : error) (lf' : LogFollower) (w' : W)
  (tr : trace) :
  run h (GetNext lf) w = (Err e, lf', w', tr) ->
  GetState lf' = GetState lf.
Proof.
  intros Hrun. apply GetNext_step in Hrun. unfold GetState.
  inversion Hrun as [e0 w1 t1 R | lf1 w1 t1 e0 w2 t2 R F |]; subst.
  - reflexivity.
  - destruct (resolution_keeps h _ _ _ _ _ _ R) as (Hp & Hc & _).
    now rewrite Hp, Hc.
Qed.

(** The error is the collaborator's, wrapped with the name of the fetch
    that failed. *)
Lemma GetNext_error_origin {W : Type} (h : handler W)
  (lf : LogFollower) (w : W) (e : error) (lf' : LogFollower) (w' : W)
  (tr : trace) :
  run h (GetNext lf) w = (Err e, lf', w', tr) ->
  exists cause,
    e = Wrapf "read last event in eventlog" cause \/
    e = Wrapf "poll compacted eventlog" cause \/
    e = Wrapf "poll eventlog" cause.
Proof.
  intros Hrun. apply GetNext_step in Hrun.
  inversion Hrun as [e0 w1 t1 R | lf1 w1 t1 e0 w2 t2 R F |]; subst.
  - inversion R; subst; eauto.
  - inversion F; subst; eauto.
Qed.

(** ** The mode *)

Lemma GetNext_keeps_tailing {W : Type} (h : handler W)
  (lf : LogFollower) (w : W) (r : result (list EventlogItem))
  (lf' : LogFollower) (w' : W) (tr : trace) :
  run h (GetNext lf) w = (r, lf', w', tr) ->
  caughtUp lf = true -> caughtUp lf' = true.
Proof.
  intros Hrun Hmode. apply GetNext_step in Hrun.
  inversion Hrun as [e0 w1 t1 R | lf1 w1 t1 e0 w2 t2 R F
                    | lf1 w1 t1 items lf2 w2 t2 R F]; subst.
  - assumption.
  - destruct (resolution_keeps h _ _ _ _ _ _ R) as (_ & Hc & _). congruence.
  - destruct (resolution_keeps h _ _ _ _ _ _ R) as (_ & Hc & _).
    eapply fetch_mode; [eassumption | congruence].
Qed.

(** C5: over any sequence of [GetNext] calls, successful or failing, a
    follower that is tailing ([caughtUp] true) stays tailing: the flag never
    goes from true to false. *)
Theorem caughtUp_never_reverts {W : Type} (h : handler W)
  (lf : LogFollower) (w : W) (rs : list (result (list EventlogItem)))
  (tr : trace) (lf' : LogFollower) (w' : W) :
  calls h lf w rs tr lf' w' ->
  caughtUp lf = true -> caughtUp lf' = true.
Proof.
  induction 1 as [| lf w r lf1 w1 t1 rs t lf' w' Hrun Hrest IH];
    intros Hmode.
  - assumption.
  - apply IH. eapply GetNext_keeps_tailing; eassumption.
Qed.

(** ** The boundary *)

Lemma fetch_noLastEventFetch {W : Type} (h : handler W) (lf : LogFollower)
  (w : W) (r : result (list EventlogItem)) (lf1 : LogFollower) (w1 : W)
  (t1 : trace) :
  fetch h lf w r lf1 w1 t1 -> noLastEventFetch t1 = true.
Proof.
  intros F. inversion F; subst; unfold noLastEventFetch; simpl;
    try reflexivity; now rewrite andb_false_r.
Qed.

Lemma reported_noLastEventFetch (lf : LogFollower) :
  noLastEventFetch (reported lf) = true.
Proof. unfold reported. destruct (metrics lf); reflexivity. Qed.

(** With the flag set, a call fetches no last event and keeps the
    boundary. *)
Lemma GetNext_resolved_stays {W : Type} (h : handler W) (lf : LogFollower)
  (w : W) (r : result (list EventlogItem)) (lf' : LogFollower) (w' : W)
  (tr : trace) :
  run h (GetNext lf) w = (r, lf', w', tr) ->
  endCompactRead lf = true ->
  endCompactRead lf' = true /\ endCompact lf' = endCompact lf /\
  noLastEventFetch tr = true.
Proof.
  intros Hrun Hread. apply GetNext_step in Hrun.
  inversion Hrun as [e0 w1 t1 R | lf1 w1 t1 e0 w2 t2 R F
                    | lf1 w1 t1 items lf2 w2 t2 R F]; subst.
  - inversion R; congruence.
  - inversion R; subst; try congruence.
    split; [assumption | split; [reflexivity |]].
    simpl. eapply fetch_noLastEventFetch; eassumption.
  - inversion R; subst; try congruence.
    destruct (fetch_keeps h _ _ _ _ _ _ F) as (_ & _ & _ & Hr & He).
    split; [congruence | split; [assumption |]].
    simpl. unfold noLastEventFetch. rewrite forallb_app.
    fold (noLastEventFetch t2). fold (noLastEventFetch (reported lf')).
    rewrite (fetch_noLastEventFetch h _ _ _ _ _ _ F).
    now rewrite reported_noLastEventFetch.
Qed.

(** With the flag unset, a call starts by fetching the last event. *)
Lemma GetNext_unresolved_fetches {W : Type} (h : handler W)
  (lf : LogFollower) (w : W) (r : result (list EventlogItem))
  (lf' : LogFollower) (w' : W) (tr : trace) :
  run h (GetNext lf) w = (r, lf', w', tr) ->
  endCompactRead lf = false ->
  exists rest,
    tr = EvEventlog lastEventRequest (fst (onEventlog h lastEventRequest w))
         :: rest.
Proof.
  intros Hrun Hread. apply GetNext_step in Hrun.
  inversion Hrun as [e0 w1 t1 R | lf1 w1 t1 e0 w2 t2 R F
                    | lf1 w1 t1 items lf2 w2 t2 R F]; subst;
    inversion R as [Hset | res w0 _ Hlast | e1 w0 _ Hlast]; subst;
    try congruence; rewrite Hlast; simpl; eauto.
Qed.

(** A resolution that fails changes nothing in the follower. *)
Lemma GetNext_resolution_failure {W : Type} (h : handler W)
  (lf : LogFollower) (w : W) (e : error) (w1 : W) :
  endCompactRead lf = false ->
  onEventlog h lastEventRequest w = (Err e, w1) ->
  run h (GetNext lf) w =
  (Err (Wrapf "read last event in eventlog" e), lf, w1,
   [EvEventlog lastEventRequest (Err e)]).
Proof.
  intros Hread Hlast.
  rewrite run_GetNext, run_checkLogEnd, Hread, Hlast. reflexivity.
Qed.

(** A resolution that succeeds sets the flag, and the boundary to the
    entry read, whatever the fetch after it does. *)
Lemma GetNext_resolution_success {W : Type} (h : handler W)
  (lf : LogFollower) (w : W) (res : GetEventlogResponse) (w1 : W)
  (r : result (list EventlogItem)) (lf' : LogFollower) (w' : W)
  (tr : trace) :
  endCompactRead lf = false ->
  onEventlog h lastEventRequest w = (Ok res, w1) ->
  run h (GetNext lf) w = (r, lf', w', tr) ->
  endCompactRead lf' = true /\
  endCompact lf' =
  match Items res with it :: _ => Id it | [] => endCompact lf end.
Proof.
  intros Hread Hlast Hrun. apply GetNext_step in Hrun.
  rewrite <- resolved_endCompact.
  inversion Hrun as [e0 w2 t1 R | lf1 w2 t1 e0 w3 t2 R F
                    | lf1 w2 t1 items lf2 w3 t2 R F]; subst;
    inversion R as [Hset | res0 w0 _ Hlast0 | e1 w0 _ Hlast0]; subst;
    try congruence;
    assert (res0 = res) by congruence; subst.
  - split; reflexivity.
  - destruct (fetch_keeps h _ _ _ _ _ _ F) as (_ & _ & _ & Hr & He).
    rewrite Hr, He. split; reflexivity.
Qed.

(** C8: boundary resolution is memoized.  Once the resolved flag is set,
    no call of any later sequence of [GetNext] calls fetches the last event
    again, and the boundary stays what it is; a resolution that succeeds
    sets the flag; a resolution that fails returns the failure with the
    follower untouched, flag unset, and a call on a follower whose flag is
    unset starts with the fetch of the last event. *)
Theorem boundary_resolution_memoized {W : Type} (h : handler W) :
  (forall lf w rs tr lf' w',
      calls h lf w rs tr lf' w' ->
      endCompactRead lf = true ->
      endCompactRead lf' = true /\ endCompact lf' = endCompact lf /\
      noLastEventFetch tr = true) /\
  (forall lf w res w1 r lf' w' tr,
      endCompactRead lf = false ->
      onEventlog h lastEventRequest w = (Ok res, w1) ->
      run h (GetNext lf) w = (r, lf', w', tr) ->
      endCompactRead lf' = true /\
      endCompact lf' =
      match Items res with it :: _ => Id it | [] => endCompact lf end) /\
  (forall lf w e w1,
      endCompactRead lf = false ->
      onEventlog h lastEventRequest w = (Err e, w1) ->
      run h (GetNext lf) w =
      (Err (Wrapf "read last event in eventlog" e), lf, w1,
       [EvEventlog lastEventRequest (Err e)]) /\
      forall w2 r lf2 w3 tr,
        run h (GetNext lf) w2 = (r, lf2, w3, tr) ->
        exists rest,
          tr = EvEventlog lastEventRequest
                 (fst (onEventlog h lastEventRequest w2)) :: rest).
Proof.
  split; [| split].
  - induction 1 as [| lf w r lf1 w1 t1 rs t lf' w' Hrun Hrest IH];
      intros Hread.
    + auto.
    + destruct (GetNext_resolved_stays h _ _ _ _ _ _ Hrun Hread)
        as (Hr1 & He1 & Ht1).
      destruct (IH Hr1) as (Hr & He & Ht).
      split; [assumption | split; [congruence |]].
      unfold noLastEventFetch in *. rewrite forallb_app, Ht1, Ht.
      reflexivity.
  - intros. eapply GetNext_resolution_success; eassumption.
  - intros lf w e w1 Hread Hlast. split.
    + now apply GetNext_resolution_failure.
    + intros. eapply GetNext_unresolved_fetches; eassumption.
Qed.

(** ** The type filter *)

Lemma resolution_trace {W : Type} (h : handler W) (lf : LogFollower) (w : W)
  (err : option error) (lf1 : LogFollower) (w1 : W) (t1 : trace) :
  resolution h lf w err lf1 w1 t1 -> forallb isLastEventFetch t1 = true.
Proof. intros R. inversion R; reflexivity. Qed.

Lemma resolution_tailRequest {W : Type} (h : handler W) (lf : LogFollower)
  (w : W) (err : option error) (lf1 : LogFollower) (w1 : W) (t1 : trace) :
  resolution h lf w err lf1 w1 t1 -> tailRequest lf1 = tailRequest lf.
Proof.
  intros R. destruct (resolution_keeps h _ _ _ _ _ _ R) as (Hp & _ & Hw & _).
  unfold tailRequest. now rewrite Hp, Hw.
Qed.

Lemma lastItem_snoc (front : list EventlogItem) (it : EventlogItem) :
  lastItem (front ++ [it]) = Some it.
Proof. unfold lastItem. rewrite map_app. simpl. apply last_last. Qed.

(** C6: a successful [GetNext] of a tailing follower with a type
    configured makes one fetch of the live log, after its position, for a
    batch of 100 with its wait budget; it returns the items of the batch
    whose type is the configured one; and it moves the position to the
    [Id] of the last item of the batch as the service sent it, whether or
    not that item passes the filter, or leaves the position where it was
    when the batch is empty.  A successful [GetNext] of a follower in the
    compacted phase sends the configured type in its request and returns
    the items of the answer as they are. *)
Theorem type_filter_asymmetry {W : Type} (h : handler W)
  (lf : LogFollower) (w : W) (items : list EventlogItem)
  (lf' : LogFollower) (w' : W) (tr : trace) :
  run h (GetNext lf) w = (Ok items, lf', w', tr) ->
  (caughtUp lf = true -> docType lf <> "" ->
   exists pre res,
     tr = pre ++ [EvEventlog {| After := position lf;
                                BatchSize := 100;
                                WaitMs := wait lf |} (Ok res)] ++
          reported lf' /\
     forallb isLastEventFetch pre = true /\
     items = filter (fun it => Type_ it =? docType lf) (Items res) /\
     (Items res = [] -> position lf' = position lf) /\
     (forall front it,
         Items res = front ++ [it] -> position lf' = Id it)) /\
  (caughtUp lf = false ->
   exists pre req res,
     tr = pre ++ [EvCompactedEventlog req (Ok res)] ++ reported lf' /\
     forallb isLastEventFetch pre = true /\
     cAfter req = position lf /\ cType req = docType lf /\
     items = cItems res).
Proof.
  intros Hrun. apply GetNext_step in Hrun.
  inversion Hrun as [| | lf1 w1 t1 items0 lf2 w2 t2 R F]; subst.
  pose proof (resolution_trace h _ _ _ _ _ _ R) as Hpre.
  pose proof (resolution_tailRequest h _ _ _ _ _ _ R) as Hreq.
  destruct (resolution_keeps h _ _ _ _ _ _ R) as (Hp & Hc & _ & Hd & _).
  split.
  - intros Hmode Htyped.
    inversion F as [res w0 Hm Htail | | res w0 Hm Hwin |]; subst;
      [| congruence].
    exists t1, res.
    change {| After := position lf; BatchSize := 100; WaitMs := wait lf |}
      with (tailRequest lf).
    rewrite <- Hreq. split; [reflexivity |].
    split; [assumption |]. split; [| split].
    + rewrite Hd. apply filter_ext. intros it.
      now apply keepItem_typed.
    + intros Hempty. now rewrite tailed_position, Hempty, Hp.
    + intros front it Hlast.
      now rewrite tailed_position, Hlast, lastItem_snoc.
  - intros Hmode.
    inversion F as [res w0 Hm Htail | | res w0 Hm Hwin |]; subst;
      [congruence |].
    exists t1, (compactedRequest lf1), res.
    split; [reflexivity |]. split; [assumption |]. simpl. auto.
Qed.

(** ** The compacted window *)

Lemma resolvedBoundary_memo {W : Type} (h : handler W) (lf : LogFollower)
  (w : W) :
  endCompactRead lf = true -> resolvedBoundary h lf w = endCompact lf.
Proof.
  intros Hread. unfold resolvedBoundary.
  rewrite run_checkLogEnd, Hread. reflexivity.
Qed.

Lemma resolution_boundary {W : Type} (h : handler W) (lf : LogFollower)
  (w : W) (lf1 : LogFollower) (w1 : W) (t1 : trace) :
  resolution h lf w None lf1 w1 t1 ->
  endCompact lf1 = resolvedBoundary h lf w.
Proof.
  intros R. unfold resolvedBoundary. rewrite run_checkLogEnd.
  inversion R as [Hset | res w0 Hunset Hlast |]; subst.
  - now rewrite Hset.
  - now rewrite Hunset, Hlast.
Qed.

(** The configuration of the follower is never assigned after
    construction. *)
Lemma GetNext_keeps_config {W : Type} (h : handler W) (lf : LogFollower)
  (w : W) (r : result (list EventlogItem)) (lf' : LogFollower) (w' : W)
  (tr : trace) :
  run h (GetNext lf) w = (r, lf', w', tr) ->
  wait lf' = wait lf /\ docType lf' = docType lf /\
  metrics lf' = metrics lf.
Proof.
  intros Hrun. apply GetNext_step in Hrun.
  inversion Hrun as [e0 w1 t1 R | lf1 w1 t1 e0 w2 t2 R F
                    | lf1 w1 t1 items lf2 w2 t2 R F]; subst.
  - auto.
  - destruct (resolution_keeps h _ _ _ _ _ _ R) as (_ & _ & ? & ? & ?).
    auto.
  - destruct (resolution_keeps h _ _ _ _ _ _ R) as (_ & _ & ? & ? & ?).
    destruct (fetch_keeps h _ _ _ _ _ _ F) as (? & ? & ? & _).
    repeat split; congruence.
Qed.

(** A successful call in the compacted phase: the position moves to the
    window's end, and the mode flips when the end is the boundary. *)
Lemma GetNext_compacted {W : Type} (h : handler W) (lf : LogFollower)
  (w : W) (items : list EventlogItem) (lf' : LogFollower) (w' : W)
  (tr : trace) :
  run h (GetNext lf) w = (Ok items, lf', w', tr) ->
  caughtUp lf = false ->
  let boundary := resolvedBoundary h lf w in
  let until := Z.min boundary (wrap64 (position lf + compactedBlockSize)) in
  position lf' = until /\ caughtUp lf' = (until >=? boundary) /\
  endCompactRead lf' = true /\ endCompact lf' = boundary.
Proof.
  intros Hrun Hmode. apply GetNext_step in Hrun.
  inversion Hrun as [| | lf1 w1 t1 items0 lf2 w2 t2 R F]; subst.
  destruct (resolution_keeps h _ _ _ _ _ _ R) as (Hp & Hc & _).
  pose proof (resolution_sets_flag h _ _ _ _ _ R) as Hflag.
  pose proof (resolution_boundary h _ _ _ _ _ R) as Hb.
  inversion F as [res w0 Hm Htail | | res w0 Hm Hwin |]; subst;
    [congruence |].
  destruct (compacted_fields lf1) as (Hpos & _ & _ & _ & Hr & He).
  rewrite Hpos, compacted_caughtUp, Hr, He, Hm, orb_false_r.
  unfold compactedUntil. rewrite Hp, Hb. auto.
Qed.

(** A call of a tailing follower whose boundary is resolved makes the
    fetch of the live log, and no fetch of the compacted log. *)
Lemma GetNext_tailing_trace {W : Type} (h : handler W) (lf : LogFollower)
  (w : W) (r : result (list EventlogItem)) (lf' : LogFollower) (w' : W)
  (tr : trace) :
  run h (GetNext lf) w = (r, lf', w', tr) ->
  caughtUp lf = true -> endCompactRead lf = true ->
  existsb isCompactedEventlog tr = false /\
  exists reply rest, tr = EvEventlog (tailRequest lf) reply :: rest.
Proof.
  intros Hrun Hmode Hread. apply GetNext_step in Hrun.
  inversion Hrun as [e0 w1 t1 R | lf1 w1 t1 e0 w2 t2 R F
                    | lf1 w1 t1 items lf2 w2 t2 R F]; subst;
    inversion R; subst; try congruence;
    inversion F; subst; try congruence; simpl.
  - eauto.
  - split; [| eauto]. unfold reported.
    match goal with |- context [metrics ?l] => destruct (metrics l) end;
      reflexivity.
Qed.

(** C4: with the boundary resolved to 1000 and a follower at position 0 in
    the compacted phase, the first successful [GetNext] moves the position
    to 500 and stays in the compacted phase, the second moves it to 1000 and
    flips the mode to tailing, and the third call fetches the live log
    after 1000, and not the compacted log. *)
Theorem window_500_then_1000 {W : Type} (h : handler W)
  (lf : LogFollower) (w : W) :
  resolvedBoundary h lf w = 1000 ->
  position lf = 0 ->
  caughtUp lf = false ->
  forall r1 lf1 w1 t1,
    run h (GetNext lf) w = (Ok r1, lf1, w1, t1) ->
    GetState lf1 = (500, false) /\
    forall r2 lf2 w2 t2,
      run h (GetNext lf1) w1 = (Ok r2, lf2, w2, t2) ->
      GetState lf2 = (1000, true) /\
      forall r3 lf3 w3 t3,
        run h (GetNext lf2) w2 = (r3, lf3, w3, t3) ->
        caughtUp lf3 = true /\
        existsb isCompactedEventlog t3 = false /\
        exists reply rest,
          t3 = EvEventlog {| After := 1000;
                             BatchSize := eventlogBatchSize;
                             WaitMs := wait lf |} reply :: rest.
Proof.
  intros Hb Hp Hmode r1 lf1 w1 t1 Hrun1.
  destruct (GetNext_compacted h _ _ _ _ _ _ Hrun1 Hmode)
    as (Hp1 & Hc1 & Hr1 & He1).
  rewrite Hb, Hp in Hp1, Hc1. rewrite Hb in He1.
  change (Z.min 1000 (wrap64 (0 + compactedBlockSize))) with 500
    in Hp1, Hc1.
  change (500 >=? 1000) with false in Hc1.
  split; [unfold GetState; now rewrite Hp1, Hc1 |].
  intros r2 lf2 w2 t2 Hrun2.
  destruct (GetNext_compacted h _ _ _ _ _ _ Hrun2 Hc1)
    as (Hp2 & Hc2 & Hr2 & He2).
  rewrite (resolvedBoundary_memo h lf1 w1 Hr1), He1, Hp1 in Hp2, Hc2.
  change (Z.min 1000 (wrap64 (500 + compactedBlockSize))) with 1000
    in Hp2, Hc2.
  change (1000 >=? 1000) with true in Hc2.
  split; [unfold GetState; now rewrite Hp2, Hc2 |].
  intros r3 lf3 w3 t3 Hrun3.
  split; [eapply GetNext_keeps_tailing; eassumption |].
  destruct (GetNext_tailing_trace h _ _ _ _ _ _ Hrun3 Hc2 Hr2)
    as (Hnone & reply & rest & Ht3).
  split; [assumption |]. exists reply, rest. rewrite Ht3.
  unfold tailRequest. rewrite Hp2.
  destruct (GetNext_keeps_config h _ _ _ _ _ _ Hrun1) as (Hw1 & _).
  destruct (GetNext_keeps_config h _ _ _ _ _ _ Hrun2) as (Hw2 & _).
  now rewrite Hw2, Hw1.
Qed.

(** ** The position *)

(** One successful call: the position does not go down, and the compacted
    phase keeps its room. *)
Lemma GetNext_position_le {W : Type} (h : handler W) (lf : LogFollower)
  (w : W) (items : list EventlogItem) (lf' : LogFollower) (w' : W)
  (tr : trace) :
  run h (GetNext lf) w = (Ok items, lf', w', tr) ->
  Forall endsAfter tr ->
  withinBoundary h lf w ->
  position lf <= position lf' /\ withinBoundary h lf' w'.
Proof.
  intros Hrun Hsrc Hroom.
  destruct (caughtUp lf) eqn:Hmode.
  - pose proof (GetNext_keeps_tailing h _ _ _ _ _ _ Hrun Hmode) as Hmode'.
    split; [| intros Hc; congruence].
    apply GetNext_step in Hrun.
    inversion Hrun as [| | lf1 w1 t1 items0 lf2 w2 t2 R F]; subst.
    destruct (resolution_keeps h _ _ _ _ _ _ R) as (Hp & Hc & _).
    pose proof (resolution_tailRequest h _ _ _ _ _ _ R) as Hreq.
    inversion F as [res w0 Hm Htail | | res w0 Hm Hwin |]; subst;
      [| congruence].
    rewrite tailed_position, Hp.
    apply Forall_app in Hsrc. destruct Hsrc as [_ Hsrc].
    inversion Hsrc as [| ev evs Hev _]; subst. simpl in Hev.
    rewrite Hp in Hev.
    destruct (lastItem (Items res)); [assumption | lia].
  - destruct (GetNext_compacted h _ _ _ _ _ _ Hrun Hmode)
      as (Hp' & Hc' & Hr' & He').
    destruct (Hroom Hmode) as ((Hlo & Hle) & Hhi).
    unfold compactedBlockSize, MinInt64, MaxInt64 in *.
    rewrite wrap64_id in Hp', Hc'
      by (unfold MinInt64, MaxInt64; lia).
    split; [lia |].
    intros _. rewrite (resolvedBoundary_memo h lf' w' Hr'), He'.
    unfold compactedBlockSize, MinInt64, MaxInt64. lia.
Qed.

(** C3, as amended: over any sequence of successful [GetNext] calls the
    position does not go down, provided that a follower in the compacted
    phase starts at an [int64] position at or below the resolved boundary,
    that the boundary is at most [MaxInt64 - 500], and that every batch of
    the live log that is not empty ends at or past the position it was
    asked after. *)
Theorem position_monotone_within_boundary {W : Type} (h : handler W)
  (lf : LogFollower) (w : W) (rs : list (result (list EventlogItem)))
  (tr : trace) (lf' : LogFollower) (w' : W) :
  calls h lf w rs tr lf' w' ->
  Forall succeeded rs ->
  Forall endsAfter tr ->
  withinBoundary h lf w ->
  position lf <= position lf'.
Proof.
  induction 1 as [| lf w r lf1 w1 t1 rs t lf' w' Hrun Hrest IH];
    intros Hok Hsrc Hroom.
  - lia.
  - inversion Hok as [| r0 rs0 Hr Hrs]; subst.
    destruct r as [items | e]; [| contradiction].
    apply Forall_app in Hsrc. destruct Hsrc as [Hsrc1 Hsrc2].
    destruct (GetNext_position_le h _ _ _ _ _ _ Hrun Hsrc1 Hroom)
      as [Hle Hroom1].
    specialize (IH Hrs Hsrc2 Hroom1). lia.
Qed.

(** ** An empty live log *)


(** ** The metrics sink *)


(** A follower that holds no sink calls none, and its call goes through
    all the same. *)
Lemma GetNext_no_sink {W : Type} (h : handler W) (lf : LogFollower) (w : W)
  (r : result (list EventlogItem)) (lf' : LogFollower) (w' : W)
  (tr : trace) :
  run h (GetNext lf) w = (r, lf', w', tr) ->
  metrics lf = None ->
  existsb isSetPosition tr = false.
Proof.
  intros Hrun Hm.
  destruct (GetNext_keeps_config h _ _ _ _ _ _ Hrun) as (_ & _ & Hm').
  apply GetNext_step in Hrun.
  inversion Hrun as [e0 w1 t1 R | lf1 w1 t1 e0 w2 t2 R F
                    | lf1 w1 t1 items lf2 w2 t2 R F]; subst.
  - inversion R; reflexivity.
  - rewrite existsb_app. inversion R; inversion F; reflexivity.
  - rewrite !existsb_app. unfold reported. rewrite Hm', Hm.
    inversion R; inversion F; reflexivity.
Qed.

(** C2, what the code does: [NewLogFollower] does not copy [Metrics] from
    the options into the follower, so over any sequence of [GetNext] calls
    on a follower it built no call to a sink is ever made, with or without
    a sink in the options. *)
Theorem NewLogFollower_never_reports {W : Type} (h : handler W)
  (opts : FollowerOptions) (w : W)
  (rs : list (result (list EventlogItem))) (tr : trace)
  (lf' : LogFollower) (w' : W) :
  calls h (NewLogFollower opts) w rs tr lf' w' ->
  existsb isSetPosition tr = false.
Proof.
  assert (Hnone : metrics (NewLogFollower opts) = None) by reflexivity.
  revert Hnone. generalize (NewLogFollower opts) as lf.
  intros lf Hnone Hcalls. revert Hnone.
  induction Hcalls as [| lf w r lf1 w1 t1 rs t lf' w' Hrun Hrest IH];
    intros Hnone.
  - reflexivity.
  - rewrite existsb_app.
    rewrite (GetNext_no_sink h _ _ _ _ _ _ Hrun Hnone).
    destruct (GetNext_keeps_config h _ _ _ _ _ _ Hrun) as (_ & _ & Hm).
    apply IH. congruence.
Qed.

(** ** The wait budget *)

(** The constructor's clamp, where the conversion to [int32] is exact. *)
Lemma wait_clamped (opts : FollowerOptions) :
  MinInt32 <= Milliseconds (WaitDuration opts) ->
  wait (NewLogFollower opts) =
  Z.min (Milliseconds (WaitDuration opts)) MaxInt32.
Proof.
  intros Hlo. simpl. apply to_int32_id.
  unfold MinInt32, MaxInt32 in *. lia.
Qed.

(** The stored wait is the budget of the fetch of the live log. *)
Lemma tailing_forwards_wait {W : Type} (h : handler W)
  (opts : FollowerOptions) (w : W) (items : list EventlogItem)
  (lf' : LogFollower) (w' : W) (tr : trace) :
  CaughtUp opts = true ->
  run h (GetNext (NewLogFollower opts)) w = (Ok items, lf', w', tr) ->
  exists first reply,
    tr = [first;
          EvEventlog {| After := StartAfter opts;
                        BatchSize := eventlogBatchSize;
                        WaitMs := wait (NewLogFollower opts) |} reply].
Proof.
  intros Hmode Hrun. apply GetNext_step in Hrun.
  inversion Hrun as [| | lf1 w1 t1 items0 lf2 w2 t2 R F]; subst.
  pose proof (resolution_tailRequest h _ _ _ _ _ _ R) as Hreq.
  destruct (resolution_keeps h _ _ _ _ _ _ R) as (_ & Hc & _ & _ & Hm).
  simpl in Hc, Hm.
  inversion R as [Hset | res0 w0 _ Hlast0 |]; subst; [discriminate |].
  inversion F as [res w3 Hmd Htail | | cres w3 Hmd Hwin |]; subst;
    [| congruence].
  unfold reported.
  rewrite (proj1 (proj2 (proj2 (proj2 (tailed_fields _ res))))), Hm.
  rewrite Hreq. simpl. eauto.
Qed.

(** C9, what the code does: a wait duration of -2147483649 ms is below
    what an [int32] holds; bounded from above alone it stays
    -2147483649, and the conversion turns it into 2147483647, which a
    tailing follower then sends as its wait budget. *)
Theorem wait_wraps_below_int32 :
  let opts := options 0 true "" (-2147483649 * Millisecond) in
  Z.min (Milliseconds (WaitDuration opts)) MaxInt32 = -2147483649 /\
  wait (NewLogFollower opts) = 2147483647 /\
  snd (run scripted (GetNext (NewLogFollower opts)) [batch []; batch []]) =
  [EvEventlog lastEventRequest (Ok {| Items := [] |});
   EvEventlog {| After := 0; BatchSize := 100; WaitMs := 2147483647 |}
              (Ok {| Items := [] |})].
Proof. vm_compute. auto. Qed.

(** Whatever a call of a follower asks of the live log for a batch, it
    asks with the follower's stored wait. *)
Lemma GetNext_batch_fetch_wait {W : Type} (h : handler W) (lf : LogFollower)
  (w : W) (r : result (list EventlogItem)) (lf' : LogFollower) (w' : W)
  (tr : trace) (req : GetEventlogRequest)
  (reply : result GetEventlogResponse) :
  run h (GetNext lf) w = (r, lf', w', tr) ->
  In (EvEventlog req reply) tr ->
  BatchSize req = eventlogBatchSize ->
  WaitMs req = wait lf.
Proof.
  intros Hrun Hin Hbatch. apply GetNext_step in Hrun.
  assert (Hrep : forall l, ~ In (EvEventlog req reply) (reported l)).
  { intros l. unfold reported. destruct (metrics l); simpl; intuition congruence. }
  assert (Hres : forall l s e l1 s1 t1,
             resolution h l s e l1 s1 t1 ->
             ~ In (EvEventlog req reply) t1).
  { intros l s e l1 s1 t1 R Hin1.
    inversion R; subst; simpl in Hin1; try contradiction;
      destruct Hin1 as [E | []]; inversion E; subst; discriminate Hbatch. }
  assert (Hfetch : forall l s r1 l1 s1 t1,
             fetch h l s r1 l1 s1 t1 ->
             In (EvEventlog req reply) t1 -> WaitMs req = wait l).
  { intros l s r1 l1 s1 t1 Ft Hin1.
    inversion Ft; subst; simpl in Hin1; destruct Hin1 as [E | []];
      inversion E; subst; reflexivity. }
  inversion Hrun as [e0 w1 t1 R | lf1 w1 t1 e0 w2 t2 R Ft
                    | lf1 w1 t1 items lf2 w2 t2 R Ft]; subst.
  - exfalso. eapply Hres; eassumption.
  - destruct (resolution_keeps h _ _ _ _ _ _ R) as (_ & _ & Hw & _).
    apply in_app_or in Hin. destruct Hin as [Hin | Hin].
    + exfalso. eapply Hres; eassumption.
    + rewrite <- Hw. eapply Hfetch; eassumption.
  - destruct (resolution_keeps h _ _ _ _ _ _ R) as (_ & _ & Hw & _).
    apply in_app_or in Hin. destruct Hin as [Hin | Hin].
    + exfalso. eapply Hres; eassumption.
    + apply in_app_or in Hin. destruct Hin as [Hin | Hin].
      * rewrite <- Hw. eapply Hfetch; eassumption.
      * exfalso. eapply Hrep; eassumption.
Qed.

(** Over a sequence of calls the stored wait stays, and every fetch of a
    batch of the live log carries it. *)
Lemma calls_batch_fetch_wait {W : Type} (h : handler W) (lf : LogFollower)
  (w : W) (rs : list (result (list EventlogItem))) (tr : trace)
  (lf' : LogFollower) (w' : W) :
  calls h lf w rs tr lf' w' ->
  wait lf' = wait lf /\
  forall req reply,
    In (EvEventlog req reply) tr ->
    BatchSize req = eventlogBatchSize ->
    WaitMs req = wait lf.
Proof.
  induction 1 as [| lf w r lf1 w1 t1 rs t lf' w' Hrun Hrest IH].
  - split; [reflexivity | intros req reply []].
  - destruct (GetNext_keeps_config h _ _ _ _ _ _ Hrun) as (Hw & _).
    destruct IH as [Hw' Hall]. split; [congruence |].
    intros req reply Hin Hbatch.
    apply in_app_or in Hin. destruct Hin as [Hin | Hin].
    + eapply GetNext_batch_fetch_wait; eassumption.
    + rewrite <- Hw. eapply Hall; eassumption.
Qed.

(** The constructor's wait for a negative duration above
    [-2147483649] milliseconds: the whole milliseconds of the duration,
    counted toward zero. *)
Lemma negative_wait_stored (opts : FollowerOptions) :
  -2147483649 * Millisecond < WaitDuration opts < 0 ->
  wait (NewLogFollower opts) = - (- WaitDuration opts / 1000000) /\
  MinInt32 <= wait (NewLogFollower opts) <= 0 /\
  (wait (NewLogFollower opts) = 0 <-> - Millisecond < WaitDuration opts).
Proof.
  unfold Millisecond, MinInt32. intros Hd.
  pose proof (Z.div_mod (- WaitDuration opts) 1000000 ltac:(lia)) as Hdm.
  pose proof (Z.mod_pos_bound (- WaitDuration opts) 1000000 ltac:(lia))
    as Hmod.
  assert (Hq : Milliseconds (WaitDuration opts) =
               - (- WaitDuration opts / 1000000)).
  { unfold Milliseconds.
    rewrite <- (Z.opp_involutive (WaitDuration opts)) at 1.
    rewrite Z.quot_opp_l by lia.
    rewrite Z.quot_div_nonneg by lia. reflexivity. }
  assert (Hw : wait (NewLogFollower opts) =
               - (- WaitDuration opts / 1000000)).
  { cbn [wait NewLogFollower]. rewrite Hq.
    rewrite to_int32_id; unfold MinInt32, MaxInt32; lia. }
  rewrite Hw. split; [reflexivity |]. split; lia.
Qed.

(** C10, as amended: for every negative wait duration above -2147483649
    milliseconds, the stored wait is the count of the duration's whole
    milliseconds, taken toward zero; it lies between [MinInt32] and 0, and
    is 0 exactly for the durations above minus one millisecond: the
    constructor neither raises a negative count to zero nor rejects it.
    Over any sequence of [GetNext] calls of a follower so built, every
    fetch of a batch of the live log carries that stored wait, and every
    successful call of it in tailing mode makes such a fetch, after its
    position. *)
Theorem negative_wait_forwarded {W : Type} (h : handler W)
  (opts : FollowerOptions) :
  -2147483649 * Millisecond < WaitDuration opts < 0 ->
  wait (NewLogFollower opts) = - (- WaitDuration opts / 1000000) /\
  MinInt32 <= wait (NewLogFollower opts) <= 0 /\
  (wait (NewLogFollower opts) = 0 <-> - Millisecond < WaitDuration opts) /\
  forall w rs tr lf w1,
    calls h (NewLogFollower opts) w rs tr lf w1 ->
    (forall req reply,
        In (EvEventlog req reply) tr ->
        BatchSize req = 100 ->
        WaitMs req = - (- WaitDuration opts / 1000000)) /\
    forall items lf' w' t,
      caughtUp lf = true ->
      run h (GetNext lf) w1 = (Ok items, lf', w', t) ->
      exists pre res,
        t = pre ++
            [EvEventlog {| After := position lf;
                           BatchSize := 100;
                           WaitMs := - (- WaitDuration opts / 1000000) |}
               (Ok res)] ++ reported lf' /\
        forallb isLastEventFetch pre = true.
Proof.
  intros Hd.
  destruct (negative_wait_stored opts Hd) as (Hw & Hrange & Hzero).
  split; [assumption | split; [assumption | split; [assumption |]]].
  intros w rs tr lf w1 Hcalls.
  destruct (calls_batch_fetch_wait h _ _ _ _ _ _ Hcalls) as [Hkeep Hall].
  rewrite <- Hw. split.
  - exact Hall.
  - intros items lf' w' t Hmode Hrun. rewrite <- Hkeep.
    apply GetNext_step in Hrun.
    inversion Hrun as [| | lf1 w2 t1 items0 lf2 w3 t2 R Ft]; subst.
    pose proof (resolution_trace h _ _ _ _ _ _ R) as Hpre.
    pose proof (resolution_tailRequest h _ _ _ _ _ _ R) as Hreq.
    destruct (resolution_keeps h _ _ _ _ _ _ R) as (_ & Hc & _).
    inversion Ft as [res w0 Hm Htail | | res w0 Hm Hwin |]; subst;
      [| congruence].
    exists t1, res. split; [| assumption].
    change {| After := position lf; BatchSize := 100; WaitMs := wait lf |}
      with (tailRequest lf).
    rewrite <- Hreq. reflexivity.
Qed.

(** ** The statements above, on concrete runs *)

Lemma GetNext_error_keeps_state_witness :
  run scripted (GetNext (followerAt 0 false "article")) outageScript =
  outageRun /\
  GetState (followerOf outageRun) = GetState (followerAt 0 false "article").
Proof.
  split; [vm_compute; reflexivity |].
  eapply (GetNext_error_keeps_state scripted
            (followerAt 0 false "article") outageScript).
  vm_compute. reflexivity.
Defined.

Lemma caughtUp_never_reverts_witness :
  calls scripted (followerAt 10 true "article") tailScript
    (resultOf tailThenOutageRun) (traceOf tailThenOutageRun)
    (followerOf tailThenOutageRun) (worldOf tailThenOutageRun) /\
  caughtUp (followerAt 10 true "article") = true /\
  caughtUp (followerOf tailThenOutageRun) = true.
Proof.
  assert (Hcalls : calls scripted (followerAt 10 true "article") tailScript
                     (resultOf tailThenOutageRun) (traceOf tailThenOutageRun)
                     (followerOf tailThenOutageRun)
                     (worldOf tailThenOutageRun)).
  { apply (GetNextTimes_calls scripted 2). vm_compute. reflexivity. }
  split; [exact Hcalls | split; [reflexivity |]].
  exact (caughtUp_never_reverts scripted _ _ _ _ _ _ Hcalls eq_refl).
Defined.

Lemma boundary_resolution_memoized_witness :
  (endCompactRead (followerOf replayRest) = true /\
   endCompact (followerOf replayRest) = endCompact (followerOf replayFirst) /\
   noLastEventFetch (traceOf replayRest) = true) /\
  (endCompactRead (followerOf replayFirst) = true /\
   endCompact (followerOf replayFirst) = 1000) /\
  run scripted (GetNext (followerAt 0 false "article")) [] =
  (Err (Wrapf "read last event in eventlog" (Transport "unavailable")),
   followerAt 0 false "article", [],
   [EvEventlog lastEventRequest (Err (Transport "unavailable"))]).
Proof.
  destruct (boundary_resolution_memoized scripted) as (Hmemo & Hset & Hfail).
  split; [| split].
  - eapply (Hmemo (followerOf replayFirst) (worldOf replayFirst)).
    + apply (GetNextTimes_calls scripted 2). vm_compute. reflexivity.
    + reflexivity.
  - eapply (Hset (followerAt 0 false "article") replayScript
              {| Items := [item 1000 "article"] |}).
    + reflexivity.
    + vm_compute. reflexivity.
    + vm_compute. reflexivity.
  - exact (proj1 (Hfail (followerAt 0 false "article") [] _ _
                    eq_refl eq_refl)).
Defined.

Lemma type_filter_asymmetry_witness :
  resultOf tailRun = Ok [item 11 "article"; item 13 "article"] /\
  position (followerOf tailRun) = 14 /\
  (exists pre req res,
      traceOf replayFirst =
      pre ++ [EvCompactedEventlog req (Ok res)] ++
      reported (followerOf replayFirst) /\
      forallb isLastEventFetch pre = true /\
      cAfter req = 0 /\ cType req = "article" /\
      [item 3 "article"] = cItems res).
Proof.
  assert (Htail : run scripted (GetNext (followerAt 10 true "article"))
                    tailScript =
                  (Ok [item 11 "article"; item 13 "article"],
                   followerOf tailRun, worldOf tailRun, traceOf tailRun))
    by (vm_compute; reflexivity).
  assert (Hwin : run scripted (GetNext (followerAt 0 false "article"))
                   replayScript =
                 (Ok [item 3 "article"], followerOf replayFirst,
                  worldOf replayFirst, traceOf replayFirst))
    by (vm_compute; reflexivity).
  split; [reflexivity | split].
  - destruct (proj1 (type_filter_asymmetry scripted _ _ _ _ _ _ Htail)
                eq_refl ltac:(discriminate))
      as (pre & res & Htr & _ & _ & _ & Hlast).
    apply (Hlast [item 11 "article"; item 12 "planning";
                  item 13 "article"] (item 14 "planning")).
    change (traceOf tailRun) with
      ([EvEventlog lastEventRequest
          (Ok {| Items := [item 12 "planning"] |})] ++
       [EvEventlog {| After := 10; BatchSize := 100; WaitMs := 0 |}
          (Ok {| Items := [item 11 "article"; item 12 "planning";
                           item 13 "article"; item 14 "planning"] |})])
      in Htr.
    change (reported (followerOf tailRun)) with (@nil event) in Htr.
    rewrite app_nil_r in Htr.
    apply app_inj_tail in Htr. destruct Htr as [_ Hev].
    inversion Hev. reflexivity.
  - apply (proj2 (type_filter_asymmetry scripted _ _ _ _ _ _ Hwin)).
    reflexivity.
Defined.

Lemma window_500_then_1000_witness :
  resolvedBoundary scripted (followerAt 0 false "article") replayScript =
  1000 /\
  GetState (followerOf replayFirst) = (500, false) /\
  GetState (followerOf replaySecond) = (1000, true) /\
  caughtUp (followerOf replayThird) = true /\
  existsb isCompactedEventlog (traceOf replayThird) = false.
Proof.
  assert (H1 : run scripted (GetNext (followerAt 0 false "article"))
                 replayScript =
               (Ok [item 3 "article"], followerOf replayFirst,
                worldOf replayFirst, traceOf replayFirst))
    by (vm_compute; reflexivity).
  assert (H2 : run scripted (GetNext (followerOf replayFirst))
                 (worldOf replayFirst) =
               (Ok [], followerOf replaySecond, worldOf replaySecond,
                traceOf replaySecond))
    by (vm_compute; reflexivity).
  assert (H3 : run scripted (GetNext (followerOf replaySecond))
                 (worldOf replaySecond) =
               (resultOf replayThird, followerOf replayThird,
                worldOf replayThird, traceOf replayThird))
    by (vm_compute; reflexivity).
  split; [reflexivity |].
  destruct (window_500_then_1000 scripted (followerAt 0 false "article")
              replayScript eq_refl eq_refl eq_refl _ _ _ _ H1)
    as [G1 K1].
  destruct (K1 _ _ _ _ H2) as [G2 K2].
  destruct (K2 _ _ _ _ H3) as (G3 & G4 & _).
  auto.
Defined.

Lemma position_monotone_within_boundary_witness :
  calls scripted (followerAt 0 false "article") replayScript
    (resultOf replayRun) (traceOf replayRun)
    (followerOf replayRun) (worldOf replayRun) /\
  Forall succeeded (resultOf replayRun) /\
  Forall endsAfter (traceOf replayRun) /\
  withinBoundary scripted (followerAt 0 false "article") replayScript /\
  0 <= position (followerOf replayRun).
Proof.
  assert (Hcalls : calls scripted (followerAt 0 false "article") replayScript
                     (resultOf replayRun) (traceOf replayRun)
                     (followerOf replayRun) (worldOf replayRun)).
  { apply (GetNextTimes_calls scripted 3). vm_compute. reflexivity. }
  assert (Hok : Forall succeeded (resultOf replayRun)).
  { repeat constructor. }
  assert (Hsrc : Forall endsAfter (traceOf replayRun)).
  { repeat constructor; simpl; lia. }
  assert (Hroom : withinBoundary scripted (followerAt 0 false "article")
                    replayScript).
  { intros _.
    change (resolvedBoundary scripted (followerAt 0 false "article")
              replayScript) with 1000.
    change (position (followerAt 0 false "article")) with 0.
    unfold MinInt64, MaxInt64, compactedBlockSize. lia. }
  repeat (split; [assumption |]).
  exact (position_monotone_within_boundary scripted _ _ _ _ _ _
           Hcalls Hok Hsrc Hroom).
Defined.


Lemma NewLogFollower_never_reports_witness :
  Metrics optionsWithSink = Some {| name := "index" |} /\
  Forall succeeded (resultOf sinkRun) /\
  existsb isSetPosition (traceOf sinkRun) = false.
Proof.
  split; [reflexivity | split; [repeat constructor |]].
  eapply (NewLogFollower_never_reports scripted optionsWithSink sinkScript).
  apply (GetNextTimes_calls scripted 2). vm_compute. reflexivity.
Defined.

Lemma negative_wait_forwarded_witness :
  -2147483649 * Millisecond < WaitDuration negativeWaitOptions < 0 /\
  wait (NewLogFollower negativeWaitOptions) = -5 /\
  caughtUp (followerOf negativeWaitReplay) = true /\
  exists pre res,
    traceOf negativeWaitTail =
    pre ++ [EvEventlog {| After := 400; BatchSize := 100; WaitMs := -5 |}
              (Ok res)] ++ reported (followerOf negativeWaitTail) /\
    forallb isLastEventFetch pre = true.
Proof.
  assert (Hd : -2147483649 * Millisecond <
               WaitDuration negativeWaitOptions < 0)
    by (split; reflexivity).
  assert (Hcalls : calls scripted (NewLogFollower negativeWaitOptions)
                     negativeWaitScript
                     (resultOf negativeWaitReplay)
                     (traceOf negativeWaitReplay)
                     (followerOf negativeWaitReplay)
                     (worldOf negativeWaitReplay)).
  { apply (GetNextTimes_calls scripted 1). vm_compute. reflexivity. }
  assert (Hrun : run scripted (GetNext (followerOf negativeWaitReplay))
                   (worldOf negativeWaitReplay) =
                 (Ok [], followerOf negativeWaitTail,
                  worldOf negativeWaitTail, traceOf negativeWaitTail))
    by (vm_compute; reflexivity).
  destruct (negative_wait_forwarded scripted negativeWaitOptions Hd)
    as (Hw & _ & _ & Hfwd).
  split; [exact Hd | split; [exact Hw | split; [reflexivity |]]].
  exact (proj2 (Hfwd _ _ _ _ _ Hcalls) _ _ _ _ eq_refl Hrun).
Defined.

(** ** Where the three statements fail *)


(** C3: a follower that starts at 2000 in the compacted phase, on a log
    whose last entry is 1000, is at 1000 after its first successful call. *)
Lemma positionNeverDecreases_fails : ~ positionNeverDecreases.
Proof.
  intros Hclaim.
  assert (Hcalls : calls scripted (followerAt 2000 false "article")
                     [batch [item 1000 "article"]; compactedBatch []]
                     (resultOf pastEndRun) (traceOf pastEndRun)
                     (followerOf pastEndRun) (worldOf pastEndRun)).
  { apply (GetNextTimes_calls scripted 1). vm_compute. reflexivity. }
  assert (Hok : Forall succeeded (resultOf pastEndRun)).
  { repeat constructor. }
  specialize (Hclaim _ scripted _ _ _ _ _ _ Hcalls Hok).
  vm_compute in Hclaim. apply Hclaim. reflexivity.
Qed.

(** C10: a wait of minus one nanosecond is negative, and is stored as 0,
    the count of its whole milliseconds taken toward zero: what a tailing
    follower forwards for it is not a negative wait. *)
Lemma negativeWaitIsNegativeCount_fails : ~ negativeWaitIsNegativeCount.
Proof.
  intros Hclaim.
  destruct (Hclaim (options 0 true "" (-1)) eq_refl) as [_ Hneg].
  vm_compute in Hneg. discriminate Hneg.
Qed.

(** The two other conditions of the amended C3 are needed as well: a batch
    of the live log that ends before the position asked after takes the
    position back, and so does a window whose end leaves [int64]. *)
Example position_follows_stale_batch :
  position
    (followerOf
       (run scripted (GetNext (followerAt 10 true ""))
          [batch [item 12 "article"]; batch [item 5 "article"]])) = 5.
Proof. reflexivity. Qed.

Example position_wraps_past_MaxInt64 :
  position
    (followerOf
       (run scripted (GetNext (followerAt (MaxInt64 - 100) false ""))
          [batch [item MaxInt64 "article"]; compactedBatch []])) =
  MinInt64 + 399.
Proof. vm_compute. reflexivity. Qed.

(** * Further properties of the follower *)

(** ** The end of the compacted phase *)

(** X1: A successful call in the compacted phase never leaves the position
    past the boundary, and it flips the mode exactly when it leaves the
    position on the boundary. *)
Theorem compacted_flips_on_boundary {W : Type} (h : handler W)
  (lf : LogFollower) (w : W) (items : list EventlogItem)
  (lf' : LogFollower) (w' : W) (tr : trace) :
  run h (GetNext lf) w = (Ok items, lf', w', tr) ->
  caughtUp lf = false ->
  position lf' <= endCompact lf' /\
  (caughtUp lf' = true <-> position lf' = endCompact lf').
Proof.
  intros Hrun Hmode.
  destruct (GetNext_compacted h _ _ _ _ _ _ Hrun Hmode)
    as (Hp & Hc & _ & He).
  rewrite Hp, Hc, He. split; [apply Z.le_min_l |].
  rewrite Z.geb_le. split; intros H.
  - apply Z.le_antisymm; [apply Z.le_min_l | assumption].
  - rewrite H. apply Z.le_refl.
Qed.

(** With the boundary resolved, a call starts with the fetch of the
    follower's mode. *)
Lemma GetNext_resolved_first {W : Type} (h : handler W) (lf : LogFollower)
  (w : W) (r : result (list EventlogItem)) (lf' : LogFollower) (w' : W)
  (tr : trace) :
  run h (GetNext lf) w = (r, lf', w', tr) ->
  endCompactRead lf = true ->
  exists ev rest, tr = ev :: rest /\ requestOf ev = pollRequest lf.
Proof.
  intros Hrun Hread. apply GetNext_step in Hrun. unfold pollRequest.
  inversion Hrun as [e0 w1 t1 R | lf1 w1 t1 e0 w2 t2 R F
                    | lf1 w1 t1 items lf2 w2 t2 R F]; subst;
    inversion R as [Hset | |]; subst; try congruence;
    inversion F as [res w0 Hm Hf | e1 w0 Hm Hf | res w0 Hm Hf
                   | e1 w0 Hm Hf]; subst; rewrite Hm; simpl; eauto.
Qed.

(** X2: A successful call in the compacted phase asks for the window from
    the position it starts at to the position it ends at, and the call
    after it, tailing or not, starts with a fetch whose [After] is the
    [Until] of that window.  Which entries the service counts into a window
    or a fetch at its two ends is not the follower's to say, and is not
    stated here. *)
Theorem next_fetch_starts_at_window_end {W : Type} (h : handler W)
  (lf : LogFollower) (w : W) (items : list EventlogItem)
  (lf1 : LogFollower) (w1 : W) (t1 : trace) :
  run h (GetNext lf) w = (Ok items, lf1, w1, t1) ->
  caughtUp lf = false ->
  exists pre req res,
    t1 = pre ++ [EvCompactedEventlog req (Ok res)] ++ reported lf1 /\
    cAfter req = position lf /\ cUntil req = position lf1 /\
    forall w2 r2 lf2 w3 t2,
      run h (GetNext lf1) w2 = (r2, lf2, w3, t2) ->
      exists ev rest,
        t2 = ev :: rest /\
        requestOf ev =
        if caughtUp lf1
        then ReqEventlog {| After := cUntil req;
                            BatchSize := eventlogBatchSize;
                            WaitMs := wait lf |}
        else ReqCompactedEventlog
               {| cAfter := cUntil req;
                  cUntil := Z.min (endCompact lf1)
                              (wrap64 (cUntil req + compactedBlockSize));
                  cType := docType lf |}.
Proof.
  intros Hrun Hmode.
  destruct (GetNext_compacted h _ _ _ _ _ _ Hrun Hmode)
    as (_ & _ & Hflag & _).
  destruct (GetNext_keeps_config h _ _ _ _ _ _ Hrun) as (Hw & Hd & _).
  apply GetNext_step in Hrun.
  inversion Hrun as [| | lf0 w0 t0 items0 lf2 w2 t2 R F]; subst.
  destruct (resolution_keeps h _ _ _ _ _ _ R) as (Hp & Hc & _).
  inversion F as [res w3 Hm Hf | | res w3 Hm Hf |]; subst;
    [congruence |].
  exists t0, (compactedRequest lf0), res.
  destruct (compacted_fields lf0) as (Hpos & _).
  split; [reflexivity | split; [exact Hp | split; [now rewrite Hpos |]]].
  intros w4 r2 lf3 w5 t3 Hnext.
  destruct (GetNext_resolved_first h _ _ _ _ _ _ Hnext Hflag)
    as (ev & rest & Ht & Hreq).
  exists ev, rest. split; [assumption |]. rewrite Hreq.
  unfold pollRequest, tailRequest, compactedRequest, compactedUntil.
  rewrite Hw, Hd, Hpos. reflexivity.
Qed.

(** A successful call in the compacted phase that has room: the window is
    a full block or ends on the boundary, and the room is kept. *)
Lemma GetNext_compacted_room {W : Type} (h : handler W) (lf : LogFollower)
  (w : W) (items : list EventlogItem) (lf' : LogFollower) (w' : W)
  (tr : trace) :
  run h (GetNext lf) w = (Ok items, lf', w', tr) ->
  caughtUp lf = false ->
  withinBoundary h lf w ->
  position lf' =
  Z.min (resolvedBoundary h lf w) (position lf + compactedBlockSize) /\
  caughtUp lf' =
  (position lf + compactedBlockSize >=? resolvedBoundary h lf w) /\
  resolvedBoundary h lf' w' = resolvedBoundary h lf w /\
  withinBoundary h lf' w'.
Proof.
  intros Hrun Hmode Hroom.
  destruct (GetNext_compacted h _ _ _ _ _ _ Hrun Hmode)
    as (Hp & Hc & Hr & He).
  destruct (Hroom Hmode) as ((Hlo & Hle) & Hhi).
  assert (Hb : resolvedBoundary h lf' w' = resolvedBoundary h lf w)
    by (now rewrite (resolvedBoundary_memo h lf' w' Hr)).
  unfold compactedBlockSize, MinInt64, MaxInt64 in *.
  rewrite wrap64_id in Hp, Hc by (unfold MinInt64, MaxInt64; lia).
  split; [assumption |]. split.
  - rewrite Hc. apply eq_true_iff_eq. rewrite !Z.geb_le. lia.
  - split; [assumption |]. intros _. rewrite Hb.
    unfold compactedBlockSize, MinInt64, MaxInt64. lia.
Qed.

Lemma calls_compacted_progress {W : Type} (h : handler W)
  (lf : LogFollower) (w : W) (rs : list (result (list EventlogItem)))
  (tr : trace) (lf' : LogFollower) (w' : W) :
  calls h lf w rs tr lf' w' ->
  Forall succeeded rs ->
  withinBoundary h lf w ->
  (caughtUp lf' = false ->
   caughtUp lf = false /\
   position lf' =
   position lf + compactedBlockSize * Z.of_nat (List.length rs)) /\
  (caughtUp lf = true \/
   (rs <> [] /\
    resolvedBoundary h lf w - position lf <=
    compactedBlockSize * Z.of_nat (List.length rs)) ->
   caughtUp lf' = true).
Proof.
  induction 1 as [| lf w r lf1 w1 t1 rs t lf' w' Hrun Hrest IH];
    intros Hok Hroom.
  - split.
    + intros H. split; [assumption | simpl; lia].
    + intros [H | [H _]]; [assumption | congruence].
  - inversion Hok as [| r0 rs0 Hr Hrs]; subst.
    destruct r as [items | e]; [| contradiction].
    destruct (caughtUp lf) eqn:Hmode.
    + pose proof (GetNext_keeps_tailing h _ _ _ _ _ _ Hrun Hmode) as Hm1.
      assert (Hroom1 : withinBoundary h lf1 w1)
        by (intros Hc; congruence).
      destruct (IH Hrs Hroom1) as [_ IHup].
      assert (Hup : caughtUp lf' = true) by (apply IHup; now left).
      split; [intros Hc; congruence | intros _; assumption].
    + destruct (GetNext_compacted_room h _ _ _ _ _ _ Hrun Hmode Hroom)
        as (Hp1 & Hc1 & Hb1 & Hroom1).
      destruct (IH Hrs Hroom1) as [IHdown IHup].
      unfold compactedBlockSize in *.
      split.
      * intros Hc. destruct (IHdown Hc) as [Hm1 Hp'].
        split; [reflexivity |].
        rewrite Hm1 in Hc1. symmetry in Hc1.
        rewrite Z.geb_leb, Z.leb_gt in Hc1.
        simpl List.length. lia.
      * intros [Hc | [_ Hfar]]; [discriminate |].
        apply IHup.
        destruct (position lf + 500 >=? resolvedBoundary h lf w) eqn:Hcmp.
        -- now left.
        -- right. rewrite Z.geb_leb, Z.leb_gt in Hcmp.
           simpl List.length in Hfar. rewrite Hb1.
           destruct rs as [| r' rs']; [simpl in Hfar; lia |].
           split; [discriminate |]. simpl List.length in *. lia.
Qed.

(** X3: The compacted phase ends.  For a follower that starts it at or below
    the boundary, with the boundary at most [MaxInt64 - 500]: as long as
    it is still in the compacted phase after [n] successful calls, each of
    them moved the position by a full block of 500; and [n] successful
    calls, one at least, leave it tailing as soon as [500 * n] covers the
    distance from the starting position to the boundary. *)
Theorem compacted_phase_ends {W : Type} (h : handler W)
  (lf : LogFollower) (w : W) (rs : list (result (list EventlogItem)))
  (tr : trace) (lf' : LogFollower) (w' : W) :
  calls h lf w rs tr lf' w' ->
  Forall succeeded rs ->
  withinBoundary h lf w ->
  caughtUp lf = false ->
  (caughtUp lf' = false ->
   position lf' =
   position lf + compactedBlockSize * Z.of_nat (List.length rs)) /\
  (rs <> [] ->
   resolvedBoundary h lf w - position lf <=
   compactedBlockSize * Z.of_nat (List.length rs) ->
   caughtUp lf' = true).
Proof.
  intros Hcalls Hok Hroom Hmode.
  destruct (calls_compacted_progress h _ _ _ _ _ _ Hcalls Hok Hroom)
    as [Hdown Hup].
  split.
  - intros Hc. apply Hdown. assumption.
  - intros Hne Hfar. apply Hup. right. split; assumption.
Qed.

(** ** Failed calls and retries *)

(** X4: A failed call ends with the request that failed, and the call after
    it, whatever the collaborators have become, starts with that same
    request: a retry asks again for the same range. *)
Theorem retry_repeats_request {W : Type} (h : handler W)
  (lf : LogFollower) (w : W) (e : error) (lf1 : LogFollower) (w1 : W)
  (t1 : trace) :
  run h (GetNext lf) w = (Err e, lf1, w1, t1) ->
  exists pre ev,
    t1 = pre ++ [ev] /\
    forall w2 r2 lf2 w3 t2,
      run h (GetNext lf1) w2 = (r2, lf2, w3, t2) ->
      exists ev' rest, t2 = ev' :: rest /\ requestOf ev' = requestOf ev.
Proof.
  intros Hrun. apply GetNext_step in Hrun.
  inversion Hrun as [e0 w0 t0 R | lf0 w0 t0 e0 w2 t2 R F |]; subst.
  - inversion R as [| | e1 w3 Hunset Hlast]; subst.
    exists [], (EvEventlog lastEventRequest (Err e1)).
    split; [reflexivity |].
    intros w2 r2 lf2 w4 t2 Hnext.
    destruct (GetNext_unresolved_fetches h _ _ _ _ _ _ Hnext Hunset)
      as (rest & Ht).
    eauto.
  - pose proof (resolution_sets_flag h _ _ _ _ _ R) as Hflag.
    assert (Hlast : exists ev, t2 = [ev] /\ requestOf ev = pollRequest lf1).
    { unfold pollRequest.
      inversion F as [| e1 w3 Hm Hf | | e1 w3 Hm Hf]; subst;
        rewrite Hm; eauto. }
    destruct Hlast as (ev & -> & Hreq).
    exists t0, ev. split; [reflexivity |].
    intros w3 r2 lf2 w4 t3 Hnext.
    destruct (GetNext_resolved_first h _ _ _ _ _ _ Hnext Hflag)
      as (ev' & rest & Ht & Hreq').
    exists ev', rest. split; [assumption | congruence].
Qed.

(** X5: The error a call returns is the error of the last request it made,
    under the name of the fetch that failed; nothing is requested after a
    failure. *)
Theorem error_wraps_last_answer {W : Type} (h : handler W)
  (lf : LogFollower) (w : W) (e : error) (lf' : LogFollower) (w' : W)
  (tr : trace) :
  run h (GetNext lf) w = (Err e, lf', w', tr) ->
  exists pre cause,
    (tr = pre ++ [EvEventlog lastEventRequest (Err cause)] /\
     e = Wrapf "read last event in eventlog" cause) \/
    (tr = pre ++ [EvEventlog (tailRequest lf) (Err cause)] /\
     caughtUp lf = true /\
     e = Wrapf "poll eventlog" cause) \/
    (exists req,
        tr = pre ++ [EvCompactedEventlog req (Err cause)] /\
        caughtUp lf = false /\
        e = Wrapf "poll compacted eventlog" cause).
Proof.
  intros Hrun. apply GetNext_step in Hrun.
  inversion Hrun as [e0 w0 t0 R | lf0 w0 t0 e0 w2 t2 R F |]; subst.
  - inversion R as [| | e1 w3 Hunset Hlast]; subst.
    exists [], e1. left. split; reflexivity.
  - destruct (resolution_keeps h _ _ _ _ _ _ R) as (_ & Hc & _).
    pose proof (resolution_tailRequest h _ _ _ _ _ _ R) as Hreq.
    inversion F as [| e1 w3 Hm Hf | | e1 w3 Hm Hf]; subst;
      exists t0, e1; right.
    + left. rewrite <- Hreq. repeat split; congruence.
    + right. exists (compactedRequest lf'). repeat split; congruence.
Qed.

(** ** What one call asks of its collaborators *)

(** X6: A call makes at most three requests; a tailing follower never asks for
    the compacted log, a follower in the compacted phase never makes a
    fetch of a batch of the live log, and a call that fails never reports
    to the sink. *)
Theorem GetNext_call_discipline {W : Type} (h : handler W)
  (lf : LogFollower) (w : W) (r : result (list EventlogItem))
  (lf' : LogFollower) (w' : W) (tr : trace) :
  run h (GetNext lf) w = (r, lf', w', tr) ->
  (List.length tr <= 3)%nat /\
  (caughtUp lf = true -> existsb isCompactedEventlog tr = false) /\
  (caughtUp lf = false -> existsb isTailFetch tr = false) /\
  (forall e, r = Err e -> existsb isSetPosition tr = false).
Proof.
  intros Hrun. apply GetNext_step in Hrun.
  assert (Hrep : forall l, (List.length (reported l) <= 1)%nat /\
                           existsb isCompactedEventlog (reported l) = false /\
                           existsb isTailFetch (reported l) = false).
  { intros l. unfold reported. destruct (metrics l); simpl; auto. }
  inversion Hrun as [e0 w0 t0 R | lf0 w0 t0 e0 w2 t2 R F
                    | lf0 w0 t0 items lf2 w2 t2 R F]; subst.
  - inversion R; subst; simpl. repeat split; auto; discriminate.
  - destruct (resolution_keeps h _ _ _ _ _ _ R) as (_ & Hc & _).
    inversion R; subst; inversion F; subst; simpl;
      repeat split; auto; congruence.
  - destruct (resolution_keeps h _ _ _ _ _ _ R) as (_ & Hc & _).
    destruct (Hrep lf') as (Hlen & Hnc & Hnt).
    inversion R; subst; inversion F; subst; simpl;
      rewrite ?Hnc, ?Hnt;
      repeat split; auto; try congruence; try discriminate; lia.
Qed.

(** ** What a sequence of calls keeps *)

(** X7: The wait budget, the type filter and the sink of a follower are those
    it was built with, after any sequence of calls. *)
Theorem configuration_never_changes {W : Type} (h : handler W)
  (lf : LogFollower) (w : W) (rs : list (result (list EventlogItem)))
  (tr : trace) (lf' : LogFollower) (w' : W) :
  calls h lf w rs tr lf' w' ->
  wait lf' = wait lf /\ docType lf' = docType lf /\
  metrics lf' = metrics lf.
Proof.
  induction 1 as [| lf w r lf1 w1 t1 rs t lf' w' Hrun Hrest IH].
  - auto.
  - destruct (GetNext_keeps_config h _ _ _ _ _ _ Hrun) as (Hw & Hd & Hm).
    destruct IH as (Hw' & Hd' & Hm').
    repeat split; congruence.
Qed.

(** ** A follower with no type configured *)

(** X8: A tailing follower with no type configured returns the batch as the
    service sent it. *)
Theorem untyped_tailing_returns_batch {W : Type} (h : handler W)
  (lf : LogFollower) (w : W) (items : list EventlogItem)
  (lf' : LogFollower) (w' : W) (tr : trace) :
  run h (GetNext lf) w = (Ok items, lf', w', tr) ->
  caughtUp lf = true ->
  docType lf = "" ->
  exists pre res,
    tr = pre ++ [EvEventlog (tailRequest lf) (Ok res)] ++ reported lf' /\
    items = Items res.
Proof.
  intros Hrun Hmode Huntyped. apply GetNext_step in Hrun.
  inversion Hrun as [| | lf1 w1 t1 items0 lf2 w2 t2 R F]; subst.
  pose proof (resolution_tailRequest h _ _ _ _ _ _ R) as Hreq.
  destruct (resolution_keeps h _ _ _ _ _ _ R) as (_ & Hc & _ & Hd & _).
  inversion F as [res w0 Hm Htail | | res w0 Hm Hwin |]; subst;
    [| congruence].
  exists t1, res. rewrite <- Hreq. split; [reflexivity |].
  rewrite Hd, Huntyped.
  clear. induction (Items res) as [| it its IH]; simpl; congruence.
Qed.

(** ** The wait budget of a duration that is not negative *)

(** X9: For every wait duration that is not negative, the stored wait is the
    count of whole milliseconds, capped at [MaxInt32]; it lies between 0
    and [MaxInt32], and is [MaxInt32] from [MaxInt32] milliseconds on. *)
Theorem nonnegative_wait_clamped (opts : FollowerOptions) :
  0 <= WaitDuration opts ->
  wait (NewLogFollower opts) =
  Z.min (WaitDuration opts / 1000000) MaxInt32 /\
  0 <= wait (NewLogFollower opts) <= MaxInt32 /\
  (MaxInt32 * Millisecond <= WaitDuration opts ->
   wait (NewLogFollower opts) = MaxInt32).
Proof.
  intros Hd.
  assert (Hq : Milliseconds (WaitDuration opts) =
               WaitDuration opts / 1000000)
    by (unfold Milliseconds; apply Z.quot_div_nonneg; lia).
  assert (Hms : 0 <= WaitDuration opts / 1000000)
    by (apply Z.div_pos; lia).
  assert (Hw : wait (NewLogFollower opts) =
               Z.min (WaitDuration opts / 1000000) MaxInt32).
  { cbn [wait NewLogFollower]. rewrite Hq. apply to_int32_id.
    unfold MinInt32, MaxInt32. lia. }
  rewrite Hw. unfold MaxInt32, Millisecond in *.
  split; [reflexivity | split; [lia |]].
  intros Hbig.
  assert (2147483647 <= WaitDuration opts / 1000000)
    by (apply Z.div_le_lower_bound; lia).
  lia.
Qed.

(** * The Prometheus sink *)

Section PrometheusFacts.

Context {F : Type} (float64 : Z -> F).

Lemma store_same (hp : Prometheus.heap F) (a : nat)
  (old vec : Prometheus.GaugeVec F) :
  nth_error hp a = Some old ->
  nth_error (Prometheus.store F hp a vec) a = Some vec.
Proof.
  revert a. induction hp as [| v hp IH]; intros [| a]; simpl;
    try discriminate; auto.
Qed.

Lemma store_other (hp : Prometheus.heap F) (a b : nat)
  (vec : Prometheus.GaugeVec F) :
  a <> b ->
  nth_error (Prometheus.store F hp a vec) b = nth_error hp b.
Proof.
  revert a b. induction hp as [| v hp IH]; intros [| a] [| b] Hne; simpl;
    try reflexivity; try congruence.
  apply IH. congruence.
Qed.

Lemma setGauge_same (vec : Prometheus.GaugeVec F) (follower state : string)
  (v : F) :
  Prometheus.setGauge F vec follower state v follower state = Some v.
Proof.
  unfold Prometheus.setGauge. now rewrite !String.eqb_refl.
Qed.

Lemma setGauge_other (vec : Prometheus.GaugeVec F)
  (follower state f s : string) (v : F) :
  (f, s) <> (follower, state) ->
  Prometheus.setGauge F vec follower state v f s = vec f s.
Proof.
  intros Hne. unfold Prometheus.setGauge.
  destruct (String.eqb_spec f follower) as [-> |]; [| reflexivity].
  destruct (String.eqb_spec s state) as [-> |]; [| reflexivity].
  congruence.
Qed.

(** [SetPosition] on a sink whose vector is in the heap. *)
Lemma SetPosition_gauge (p : Prometheus.PrometheusFollowerMetrics)
  (a : nat) (vec : Prometheus.GaugeVec F) (hp : Prometheus.heap F)
  (state : string) (pos : Z) :
  Prometheus.logPosition p = Some a ->
  nth_error hp a = Some vec ->
  exists hp',
    Prometheus.SetPosition F float64 p state pos hp = Some hp' /\
    nth_error hp' a =
    Some (Prometheus.setGauge F vec (Prometheus.name p) state
            (float64 pos)) /\
    forall b, b <> a -> nth_error hp' b = nth_error hp b.
Proof.
  intros Hptr Hvec. unfold Prometheus.SetPosition. rewrite Hptr, Hvec.
  eexists. split; [reflexivity |]. split.
  - eapply store_same. eassumption.
  - intros b Hne. apply store_other. congruence.
Qed.

(** X11: The sink that [NewPrometheusFollowerMetrics] returns does not carry
    the follower name it was given: its name is empty, and what it reports
    goes to the series of the empty follower label, the series of the given
    name staying unset. *)
Theorem NewPrometheusFollowerMetrics_drops_name {R : Type}
  (Register : nat -> R -> option error * R) (reg : R)
  (followerName : string) (hp : Prometheus.heap F)
  (p : Prometheus.PrometheusFollowerMetrics) (reg1 : R)
  (hp1 : Prometheus.heap F) :
  Prometheus.NewPrometheusFollowerMetrics F R Register reg followerName hp =
  (Ok p, reg1, hp1) ->
  Prometheus.name p = "" /\
  forall state pos,
  exists hp2,
    Prometheus.SetPosition F float64 p state pos hp1 = Some hp2 /\
    Prometheus.gauge F hp2 p "" state = Some (float64 pos) /\
    (followerName <> "" ->
     Prometheus.gauge F hp2 p followerName state = None).
Proof.
  unfold Prometheus.NewPrometheusFollowerMetrics, Prometheus.NewGaugeVec.
  destruct (Register (List.length hp) reg) as [[err |] reg2];
    intros E; inversion E; subst; clear E.
  split; [reflexivity |]. intros state pos.
  assert (Hvec : nth_error (hp ++ [Prometheus.emptyVec F]) (List.length hp) =
                 Some (Prometheus.emptyVec F)).
  { rewrite nth_error_app2 by lia. now rewrite Nat.sub_diag. }
  destruct (SetPosition_gauge
              {| Prometheus.name := "";
                 Prometheus.logPosition := Some (List.length hp) |}
              _ _ _ state pos eq_refl Hvec) as (hp2 & Hset & Hnew & _).
  exists hp2. split; [exact Hset |].
  unfold Prometheus.gauge. simpl. rewrite Hnew. split.
  - apply setGauge_same.
  - intros Hne. rewrite setGauge_other; [reflexivity |].
    intros E. inversion E. contradiction.
Qed.

(** X12: Sinks made by [WithName] from one sink share its vector: what two of
    them report ends up in that one vector, each under its own follower
    name and state; the later report wins when the two coincide, and no
    other vector changes. *)
Theorem WithName_shares_vector (p : Prometheus.PrometheusFollowerMetrics)
  (a : nat) (vec : Prometheus.GaugeVec F) (hp : Prometheus.heap F)
  (n1 s1 n2 s2 : string) (x y : Z) :
  Prometheus.logPosition p = Some a ->
  nth_error hp a = Some vec ->
  exists hp1 hp2,
    Prometheus.SetPosition F float64 (Prometheus.WithName p n1) s1 x hp =
    Some hp1 /\
    Prometheus.SetPosition F float64 (Prometheus.WithName p n2) s2 y hp1 =
    Some hp2 /\
    Prometheus.gauge F hp2 p n2 s2 = Some (float64 y) /\
    ((n1, s1) <> (n2, s2) ->
     Prometheus.gauge F hp2 p n1 s1 = Some (float64 x)) /\
    forall b, b <> a -> nth_error hp2 b = nth_error hp b.
Proof.
  intros Hptr Hvec.
  destruct (SetPosition_gauge (Prometheus.WithName p n1) a vec hp s1 x
              Hptr Hvec) as (hp1 & Hset1 & Hnew1 & Hold1).
  destruct (SetPosition_gauge (Prometheus.WithName p n2) a _ hp1 s2 y
              Hptr Hnew1) as (hp2 & Hset2 & Hnew2 & Hold2).
  exists hp1, hp2. split; [assumption | split; [assumption |]].
  unfold Prometheus.gauge. rewrite Hptr, Hnew2. simpl. split.
  - apply setGauge_same.
  - split.
    + intros Hne. rewrite setGauge_other by assumption.
      apply setGauge_same.
    + intros b Hb. rewrite Hold2, Hold1 by assumption. reflexivity.
Qed.

End PrometheusFacts.

(** ** The follower with the Prometheus sink *)




(** * The further properties, on concrete runs *)

Lemma compacted_flips_on_boundary_witness :
  caughtUp (followerOf replayFirst) = false /\
  position (followerOf replaySecond) <= 1000 /\
  (caughtUp (followerOf replaySecond) = true <->
   position (followerOf replaySecond) = 1000).
Proof.
  split; [reflexivity |].
  eapply (compacted_flips_on_boundary scripted (followerOf replayFirst)
            (worldOf replayFirst)).
  - vm_compute. reflexivity.
  - reflexivity.
Defined.

Lemma next_fetch_starts_at_window_end_witness :
  exists pre req res,
    traceOf replayFirst =
    pre ++ [EvCompactedEventlog req (Ok res)] ++
    reported (followerOf replayFirst) /\
    cAfter req = 0 /\ cUntil req = 500.
Proof.
  assert (Hrun : run scripted (GetNext (followerAt 0 false "article"))
                   replayScript =
                 (Ok [item 3 "article"], followerOf replayFirst,
                  worldOf replayFirst, traceOf replayFirst))
    by (vm_compute; reflexivity).
  destruct (next_fetch_starts_at_window_end scripted _ _ _ _ _ _ Hrun
              eq_refl) as (pre & req & res & Ht & Ha & Hu & _).
  exists pre, req, res. auto.
Defined.

Lemma compacted_phase_ends_witness :
  (caughtUp (followerOf replayOneRun) = false ->
   position (followerOf replayOneRun) = 0 + 500 * 1) /\
  caughtUp (followerOf replayRun) = true.
Proof.
  assert (Hroom : withinBoundary scripted (followerAt 0 false "article")
                    replayScript).
  { intros _.
    change (resolvedBoundary scripted (followerAt 0 false "article")
              replayScript) with 1000.
    change (position (followerAt 0 false "article")) with 0.
    unfold MinInt64, MaxInt64, compactedBlockSize. lia. }
  assert (H1 : calls scripted (followerAt 0 false "article") replayScript
                 (resultOf replayOneRun) (traceOf replayOneRun)
                 (followerOf replayOneRun) (worldOf replayOneRun)).
  { apply (GetNextTimes_calls scripted 1). vm_compute. reflexivity. }
  assert (H3 : calls scripted (followerAt 0 false "article") replayScript
                 (resultOf replayRun) (traceOf replayRun)
                 (followerOf replayRun) (worldOf replayRun)).
  { apply (GetNextTimes_calls scripted 3). vm_compute. reflexivity. }
  split.
  - apply (proj1 (compacted_phase_ends scripted _ _ _ _ _ _ H1
                    ltac:(repeat constructor) Hroom eq_refl)).
  - apply (proj2 (compacted_phase_ends scripted _ _ _ _ _ _ H3
                    ltac:(repeat constructor) Hroom eq_refl)).
    + discriminate.
    + change (resolvedBoundary scripted (followerAt 0 false "article")
                replayScript) with 1000.
      vm_compute. discriminate.
Defined.

Lemma retry_repeats_request_witness :
  exists pre ev,
    traceOf outageRun = pre ++ [ev] /\
    requestOf ev =
    ReqCompactedEventlog
      {| cAfter := 0; cUntil := 500; cType := "article" |}.
Proof.
  assert (Hrun : run scripted (GetNext (followerAt 0 false "article"))
                   outageScript =
                 (Err (Wrapf "poll compacted eventlog"
                         (Transport "unavailable")),
                  followerOf outageRun, worldOf outageRun,
                  traceOf outageRun))
    by (vm_compute; reflexivity).
  destruct (retry_repeats_request scripted _ _ _ _ _ _ Hrun)
    as (pre & ev & Ht & _).
  exists pre, ev. split; [exact Ht |].
  change (traceOf outageRun) with
    ([EvEventlog lastEventRequest
        (Ok {| Items := [item 1000 "article"] |})] ++
     [EvCompactedEventlog
        {| cAfter := 0; cUntil := 500; cType := "article" |}
        (Err (Transport "unavailable"))]) in Ht.
  apply app_inj_tail in Ht. destruct Ht as [_ <-]. reflexivity.
Defined.

Lemma error_wraps_last_answer_witness :
  resultOf outageRun =
  Err (Wrapf "poll compacted eventlog" (Transport "unavailable")) /\
  exists pre ev,
    traceOf outageRun =
    pre ++ [EvCompactedEventlog ev (Err (Transport "unavailable"))].
Proof.
  split; [reflexivity |].
  assert (Hrun : run scripted (GetNext (followerAt 0 false "article"))
                   outageScript =
                 (Err (Wrapf "poll compacted eventlog"
                         (Transport "unavailable")),
                  followerOf outageRun, worldOf outageRun,
                  traceOf outageRun))
    by (vm_compute; reflexivity).
  destruct (error_wraps_last_answer scripted _ _ _ _ _ _ Hrun)
    as (pre & cause & [[_ He] | [(_ & _ & He) | (req & Ht & _ & He)]]).
  - discriminate He.
  - discriminate He.
  - inversion He; subst. exists pre, req. exact Ht.
Defined.

Lemma GetNext_call_discipline_witness :
  (List.length (traceOf tailRun) <= 3)%nat /\
  existsb isCompactedEventlog (traceOf tailRun) = false.
Proof.
  assert (Hrun : run scripted (GetNext (followerAt 10 true "article"))
                   tailScript =
                 (resultOf tailRun, followerOf tailRun, worldOf tailRun,
                  traceOf tailRun))
    by (vm_compute; reflexivity).
  destruct (GetNext_call_discipline scripted _ _ _ _ _ _ Hrun)
    as (Hlen & Htail & _).
  split; [exact Hlen | exact (Htail eq_refl)].
Defined.

Lemma configuration_never_changes_witness :
  wait (followerOf replayRun) = 0 /\
  docType (followerOf replayRun) = "article" /\
  metrics (followerOf replayRun) = None.
Proof.
  eapply (configuration_never_changes scripted
            (followerAt 0 false "article") replayScript).
  apply (GetNextTimes_calls scripted 3). vm_compute. reflexivity.
Defined.

Lemma untyped_tailing_returns_batch_witness :
  exists pre res,
    traceOf untypedRun =
    pre ++ [EvEventlog (tailRequest (followerAt 10 true "")) (Ok res)] ++
    reported (followerOf untypedRun) /\
    [item 11 "article"; item 12 "planning"; item 13 "article";
     item 14 "planning"] = Items res.
Proof.
  eapply (untyped_tailing_returns_batch scripted (followerAt 10 true "")
            tailScript).
  - vm_compute. reflexivity.
  - reflexivity.
  - reflexivity.
Defined.

Lemma nonnegative_wait_clamped_witness :
  wait (NewLogFollower (options 0 true "" (30000 * Millisecond))) = 30000 /\
  wait (NewLogFollower (options 0 true "" (3000000000 * Millisecond))) =
  MaxInt32.
Proof.
  split.
  - refine (proj1 (nonnegative_wait_clamped
                     (options 0 true "" (30000 * Millisecond)) _)).
    vm_compute. discriminate.
  - refine (proj2 (proj2 (nonnegative_wait_clamped
                            (options 0 true "" (3000000000 * Millisecond))
                            _)) _);
      vm_compute; discriminate.
Defined.


Lemma NewPrometheusFollowerMetrics_drops_name_witness :
  Prometheus.NewPrometheusFollowerMetrics Z bool registerOnce false
    "indexer" [] =
  (Ok firstSink, true, [Prometheus.emptyVec Z]) /\
  Prometheus.name firstSink = "".
Proof.
  split; [reflexivity |].
  eapply (proj1 (NewPrometheusFollowerMetrics_drops_name (fun z : Z => z)
                   registerOnce false "indexer" [] firstSink true
                   [Prometheus.emptyVec Z] eq_refl)).
Defined.

Lemma WithName_shares_vector_witness :
  exists hp1 hp2,
    Prometheus.SetPosition Z (fun z => z)
      (Prometheus.WithName firstSink "index") "compact" 500
      [Prometheus.emptyVec Z] = Some hp1 /\
    Prometheus.SetPosition Z (fun z => z)
      (Prometheus.WithName firstSink "search") "tail" 1002 hp1 = Some hp2 /\
    Prometheus.gauge Z hp2 firstSink "search" "tail" = Some 1002 /\
    Prometheus.gauge Z hp2 firstSink "index" "compact" = Some 500.
Proof.
  destruct (WithName_shares_vector (fun z : Z => z) firstSink O
              (Prometheus.emptyVec Z) [Prometheus.emptyVec Z]
              "index" "compact" "search" "tail" 500 1002 eq_refl eq_refl)
    as (hp1 & hp2 & H1 & H2 & G2 & G1 & _).
  exists hp1, hp2. repeat split; try assumption.
  apply G1. discriminate.
Defined.

